(** * Kindergarten Flashcards: the card-sequencing and scoring engine

    A shallow embedding of the session logic of [src/App.jsx]: the
    Fisher-Yates shuffle, the practice and test handlers, the reveal toggle
    and the cleaning step of the deck editor, together with the conditions
    under which the JSX renders the controls that call them.

    Conventions of the embedding.
    - A JavaScript string is the list of its UTF-16 code units.
    - A JavaScript array of card indices is a list of slots; a slot is
      [Some i] for the number [i] and [None] for [undefined], which is what
      reading past the end of an array yields.
    - [Math.random()] is a rational in the half-open unit interval; the
      product and [Math.floor] are computed exactly.
    - [uid()], [window.confirm] and the replies of the remote store are
      inputs of the events that consume them. *)

From Stdlib Require Import QArith Qround NArith String Ascii.
From stdpp Require Import list gmap.

Close Scope Q_scope.
Local Open Scope nat_scope.

(** ** JavaScript strings *)

Module JsString.

Abbreviation t := (list N).

(** Code units of an ASCII literal. *)
Definition lit (s : string) : t := map N_of_ascii (list_ascii_of_string s).

(** [WhiteSpace] and [LineTerminator] code units, the ones
    [String.prototype.trim] strips. *)
Definition is_space (c : N) : bool :=
  ((9 <=? c) && (c <=? 13) || (c =? 32) || (c =? 160) || (c =? 5760)
   || (8192 <=? c) && (c <=? 8202) || (c =? 8232) || (c =? 8233)
   || (c =? 8239) || (c =? 8287) || (c =? 12288) || (c =? 65279))%N.

Fixpoint trimStart (s : t) : t :=
  match s with
  | c :: s' => if is_space c then trimStart s' else s
  | [] => []
  end.

Definition trimEnd (s : t) : t := rev (trimStart (rev s)).

Definition trim (s : t) : t := trimEnd (trimStart s).

(** [s.length > 0], also the truthiness of a string. *)
Definition nonempty (s : t) : bool :=
  match s with [] => false | _ :: _ => true end.

(** [a || b] on strings. *)
Definition or (a b : t) : t := if nonempty a then a else b.

(** [a || undefined] on a string. *)
Definition or_undefined (a : t) : option t := if nonempty a then Some a else None.

(** [a || e] on an optional string field, [e] the empty string. *)
Definition or_empty (a : option t) : t :=
  match a with Some s => s | None => [] end.

End JsString.

Abbreviation jsstring := JsString.t.

(** ** JavaScript arrays of card indices *)

Module JsArray.

Abbreviation slot := (option nat).
Abbreviation t := (list (option nat)).

(** [a[i]]: [undefined] past the end. *)
Definition get (a : t) (i : nat) : slot := mjoin (a !! i).

(** [a[i] = v]: past the end the array grows, the gap reading [undefined]. *)
Definition set (a : t) (i : nat) (v : slot) : t :=
  if decide (i < length a) then <[i:=v]> a
  else a ++ replicate (i - length a) None ++ [v].

(** [[a[i], a[j]] = [a[j], a[i]]]: both reads come first, then the write to
    [a[i]], then the write to [a[j]]. *)
Definition swap (a : t) (i j : nat) : t :=
  let x := get a j in
  let y := get a i in
  set (set a i x) j y.

(** [a.splice(i, 1)]: the array left behind. The start is capped at the
    length, so nothing is removed past the end. *)
Definition splice_out (a : t) (i : nat) : t := delete i a.

(** [const [cur] = a.splice(i, 1)]: the first removed element, [undefined]
    when nothing was removed. *)
Definition splice_cur (a : t) (i : nat) : slot := get a i.

(** [a.splice(i, 0, v)]: insertion before index [i], the start capped at
    the length. *)
Definition splice_in (a : t) (i : nat) (v : slot) : t :=
  take i a ++ v :: drop i a.

(** [a.push(v)]. *)
Definition push (a : t) (v : slot) : t := a ++ [v].

End JsArray.

Abbreviation jsarray := JsArray.t.

(** [clamp(n, min, max) = Math.max(min, Math.min(max, n))]. *)
Definition clamp (n lo hi : nat) : nat := Nat.max lo (Nat.min hi n).

(** ** The random source *)

(** One result of [Math.random()]. *)
Record draw := Draw {
  draw_val : Q;
  draw_range : (0 <= draw_val)%Q /\ (draw_val < 1)%Q
}.

(** The results of the successive calls made by one shuffle. *)
Definition rand := nat -> draw.

(** [Math.floor(Math.random() * m)]. *)
Definition floor_scaled (r : draw) (m : nat) : nat :=
  Z.to_nat (Qfloor (draw_val r * inject_Z (Z.of_nat m))).

(** ** shuffleArray *)

(** The loop [for (let i = a.length - 1; i > 0; i--)], entered at [i] with
    [calls] draws already consumed. *)
Fixpoint shuffle_loop (rnd : rand) (calls i : nat) (a : jsarray) : jsarray :=
  match i with
  | 0 => a
  | S i' =>
      let j := floor_scaled (rnd calls) (i + 1) in
      shuffle_loop rnd (S calls) i' (JsArray.swap a i j)
  end.

(** [arr.slice()] is the identity on an immutable list. For an empty array
    the loop starts at [-1] and is not entered, as at [0]. *)
Definition shuffleArray (rnd : rand) (arr : jsarray) : jsarray :=
  shuffle_loop rnd 0 (length arr - 1) arr.

(** The swaps [(i, j)] the loop performs, in order. *)
Fixpoint shuffle_swaps (rnd : rand) (calls i : nat) : list (nat * nat) :=
  match i with
  | 0 => []
  | S i' => (i, floor_scaled (rnd calls) (i + 1)) :: shuffle_swaps rnd (S calls) i'
  end.

(** ** Data model *)

(** [Card] and [Deck] as the typedefs at the head of the file give them;
    [back] and [hint] are optional. *)
Record Card := mkCard {
  card_id : jsstring;
  front : jsstring;
  back : option jsstring;
  hint : option jsstring
}.

Record Deck := mkDeck {
  deck_id : jsstring;
  name : jsstring;
  cards : list Card
}.

Inductive Screen := home | mode | practice | test | results | editor.

Record Stats := mkStats { seen : nat; correct : nat }.

Record Score := mkScore { score_correct : nat; score_total : nat }.

(** The two message shapes pushed to a cast receiver. *)
Inductive CastMessage :=
| MsgCard (card : option Card) (showBack : bool) (idx total : nat)
| MsgResults (score : Score).

#[global] Instance Card_eq_dec : EqDecision Card.
Proof. solve_decision. Defined.

#[global] Instance Deck_eq_dec : EqDecision Deck.
Proof. solve_decision. Defined.

#[global] Instance Screen_eq_dec : EqDecision Screen.
Proof. solve_decision. Defined.

(** The [useState] cells of [App] that the handlers read or write, and the
    log of messages handed to the cast session. The view settings
    ([fontScale], [uppercase], [showHints], [expandedCards]) are read by the
    JSX only and are left out. *)
Record State := mkState {
  decks : list Deck;
  screen : Screen;
  activeDeckId : option jsstring;
  castSession : bool;
  isCasting : bool;
  queue : jsarray;
  currentIdx : nat;
  showBack : bool;
  stats : Stats;
  testQueue : jsarray;
  testIdx : nat;
  testScore : Score;
  draftDeck : option Deck;
  isNewDeck : bool;
  sent : list CastMessage
}.

(** The first render, with the decks read from local storage (or the
    starter decks). *)
Definition init (ds : list Deck) : State :=
  mkState ds home None false false [] 0 false (mkStats 0 0) [] 0 (mkScore 0 0)
          None false [].

Section Setters.
Variable s : State.

Definition setDecks v := mkState v (screen s) (activeDeckId s) (castSession s) (isCasting s) (queue s) (currentIdx s) (showBack s) (stats s) (testQueue s) (testIdx s) (testScore s) (draftDeck s) (isNewDeck s) (sent s).
Definition setScreen v := mkState (decks s) v (activeDeckId s) (castSession s) (isCasting s) (queue s) (currentIdx s) (showBack s) (stats s) (testQueue s) (testIdx s) (testScore s) (draftDeck s) (isNewDeck s) (sent s).
Definition setActiveDeckId v := mkState (decks s) (screen s) v (castSession s) (isCasting s) (queue s) (currentIdx s) (showBack s) (stats s) (testQueue s) (testIdx s) (testScore s) (draftDeck s) (isNewDeck s) (sent s).
Definition setCastSession v := mkState (decks s) (screen s) (activeDeckId s) v (isCasting s) (queue s) (currentIdx s) (showBack s) (stats s) (testQueue s) (testIdx s) (testScore s) (draftDeck s) (isNewDeck s) (sent s).
Definition setIsCasting v := mkState (decks s) (screen s) (activeDeckId s) (castSession s) v (queue s) (currentIdx s) (showBack s) (stats s) (testQueue s) (testIdx s) (testScore s) (draftDeck s) (isNewDeck s) (sent s).
Definition setQueue v := mkState (decks s) (screen s) (activeDeckId s) (castSession s) (isCasting s) v (currentIdx s) (showBack s) (stats s) (testQueue s) (testIdx s) (testScore s) (draftDeck s) (isNewDeck s) (sent s).
Definition setCurrentIdx v := mkState (decks s) (screen s) (activeDeckId s) (castSession s) (isCasting s) (queue s) v (showBack s) (stats s) (testQueue s) (testIdx s) (testScore s) (draftDeck s) (isNewDeck s) (sent s).
Definition setShowBack v := mkState (decks s) (screen s) (activeDeckId s) (castSession s) (isCasting s) (queue s) (currentIdx s) v (stats s) (testQueue s) (testIdx s) (testScore s) (draftDeck s) (isNewDeck s) (sent s).
Definition setStats v := mkState (decks s) (screen s) (activeDeckId s) (castSession s) (isCasting s) (queue s) (currentIdx s) (showBack s) v (testQueue s) (testIdx s) (testScore s) (draftDeck s) (isNewDeck s) (sent s).
Definition setTestQueue v := mkState (decks s) (screen s) (activeDeckId s) (castSession s) (isCasting s) (queue s) (currentIdx s) (showBack s) (stats s) v (testIdx s) (testScore s) (draftDeck s) (isNewDeck s) (sent s).
Definition setTestIdx v := mkState (decks s) (screen s) (activeDeckId s) (castSession s) (isCasting s) (queue s) (currentIdx s) (showBack s) (stats s) (testQueue s) v (testScore s) (draftDeck s) (isNewDeck s) (sent s).
Definition setTestScore v := mkState (decks s) (screen s) (activeDeckId s) (castSession s) (isCasting s) (queue s) (currentIdx s) (showBack s) (stats s) (testQueue s) (testIdx s) v (draftDeck s) (isNewDeck s) (sent s).
Definition setDraftDeck v := mkState (decks s) (screen s) (activeDeckId s) (castSession s) (isCasting s) (queue s) (currentIdx s) (showBack s) (stats s) (testQueue s) (testIdx s) (testScore s) v (isNewDeck s) (sent s).
Definition setIsNewDeck v := mkState (decks s) (screen s) (activeDeckId s) (castSession s) (isCasting s) (queue s) (currentIdx s) (showBack s) (stats s) (testQueue s) (testIdx s) (testScore s) (draftDeck s) v (sent s).
Definition setSent v := mkState (decks s) (screen s) (activeDeckId s) (castSession s) (isCasting s) (queue s) (currentIdx s) (showBack s) (stats s) (testQueue s) (testIdx s) (testScore s) (draftDeck s) (isNewDeck s) v.
End Setters.

(** ** Derived values of a render *)

(** [decks.find((d) => d.id === activeDeckId) || null]. *)
Definition activeDeck (s : State) : option Deck :=
  find (fun d => bool_decide (Some (deck_id d) = activeDeckId s)) (decks s).

(** [deck.cards[x]] for a slot [x]; an [undefined] index reads [undefined]. *)
Definition card_at (d : Deck) (x : JsArray.slot) : option Card :=
  x ≫= fun i => cards d !! i.

(** [activeDeck && queue.length ? activeDeck.cards[queue[currentIdx]] : null]. *)
Definition currentCard (s : State) : option Card :=
  match activeDeck s with
  | Some d =>
      if decide (0 < length (queue s)) then card_at d (JsArray.get (queue s) (currentIdx s))
      else None
  | None => None
  end.

(** [activeDeck && testQueue.length ? activeDeck.cards[testQueue[testIdx]] : null]. *)
Definition currentTestCard (s : State) : option Card :=
  match activeDeck s with
  | Some d =>
      if decide (0 < length (testQueue s)) then card_at d (JsArray.get (testQueue s) (testIdx s))
      else None
  | None => None
  end.

(** [deck.cards.map((_, i) => i)]. *)
Definition indices (d : Deck) : jsarray := imap (fun i _ => Some i) (cards d).

(** [sendCastMessage]: delivered only while a cast session is held. *)
Definition sendCastMessage (m : CastMessage) (s : State) : State :=
  if castSession s then setSent s (sent s ++ [m]) else s.

(** ** Practice mode *)

(** The body of the practice [useEffect]; React runs it after a render in
    which [screen], [activeDeckId] or [isCasting] changed. *)
Definition practiceEffect (rnd : rand) (s : State) : State :=
  match activeDeck s with
  | None => s
  | Some d =>
      if decide (screen s = practice) then
        let shuffled := shuffleArray rnd (indices d) in
        let s1 := setQueue s shuffled in
        let s2 := setCurrentIdx s1 0 in
        let s3 := setShowBack s2 false in
        let s4 := setStats s3 (mkStats 0 0) in
        if isCasting s && bool_decide (0 < length (cards d)) then
          sendCastMessage
            (MsgCard (card_at d (JsArray.get shuffled 0)) false 1 (length shuffled)) s4
        else s4
      else s
  end.

(** [flip]. *)
Definition flip (s : State) : State := setShowBack s (negb (showBack s)).

(** [shuffleNow]. *)
Definition shuffleNow (rnd : rand) (s : State) : State :=
  match activeDeck s with
  | None => s
  | Some d =>
      let s1 := setQueue s (shuffleArray rnd (indices d)) in
      let s2 := setCurrentIdx s1 0 in
      setShowBack s2 false
  end.

(** The array [q] that [nextPractice] builds from [queue] and [currentIdx]. *)
Definition requeue (ok : bool) (currentIdx : nat) (queue : jsarray) : jsarray :=
  let cur := JsArray.splice_cur queue currentIdx in
  let q := JsArray.splice_out queue currentIdx in
  if ok then JsArray.push q cur
  else JsArray.splice_in q (clamp (currentIdx + 2) 0 (length q)) cur.

(** [currentIdx >= q.length ? 0 : currentIdx]. *)
Definition wrapIdx (currentIdx : nat) (q : jsarray) : nat :=
  if decide (length q <= currentIdx) then 0 else currentIdx.

(** [nextPractice]; [ok] is the argument [correct]. *)
Definition nextPractice (ok : bool) (s : State) : State :=
  match activeDeck s with
  | None => s
  | Some d =>
      if decide (length (queue s) = 0) then s
      else
        let q := requeue ok (currentIdx s) (queue s) in
        let newIdx := wrapIdx (currentIdx s) q in
        let s1 := setQueue s q in
        let s2 := setCurrentIdx s1 newIdx in
        let s3 := setShowBack s2 false in
        let s4 :=
          setStats s3 (mkStats (seen (stats s3) + 1)
                               (correct (stats s3) + Nat.b2n ok)) in
        if isCasting s && bool_decide (0 < length (cards d)) then
          sendCastMessage
            (MsgCard (card_at d (JsArray.get q newIdx)) false (newIdx + 1) (length q)) s4
        else s4
  end.

(** ** Test mode *)

(** [startTest]. *)
Definition startTest (rnd : rand) (s : State) : State :=
  match activeDeck s with
  | None => s
  | Some d =>
      let indices := shuffleArray rnd (indices d) in
      let s1 := setTestQueue s indices in
      let s2 := setTestIdx s1 0 in
      let s3 := setTestScore s2 (mkScore 0 (length indices)) in
      let s4 := setShowBack s3 false in
      let s5 := setScreen s4 test in
      if isCasting s && bool_decide (0 < length (cards d)) then
        sendCastMessage
          (MsgCard (card_at d (JsArray.get indices 0)) false 1 (length indices)) s5
      else s5
  end.

(** [answerTest]; [ok] is the argument [correct]. *)
Definition answerTest (ok : bool) (s : State) : State :=
  let bump := Nat.b2n ok in
  let s1 :=
    setTestScore s (mkScore (score_correct (testScore s) + bump)
                            (score_total (testScore s))) in
  if decide (length (testQueue s) <= testIdx s + 1) then
    let s2 := setScreen s1 results in
    if isCasting s then
      sendCastMessage
        (MsgResults (mkScore (score_correct (testScore s) + bump) (length (testQueue s))))
        s2
    else s2
  else
    let s2 := setTestIdx s1 (testIdx s + 1) in
    let s3 := setShowBack s2 false in
    match activeDeck s with
    | Some d =>
        if isCasting s && bool_decide (0 < length (cards d)) then
          sendCastMessage
            (MsgCard (card_at d (JsArray.get (testQueue s) (testIdx s + 1))) false
                     (testIdx s + 2) (length (testQueue s))) s3
        else s3
    | None => s3
    end.

(** ** Deck editor *)

(** Falsiness of an optional string field: [undefined] or the empty string. *)
Definition falsy (a : option jsstring) : bool :=
  negb (JsString.nonempty (JsString.or_empty a)).

Definition blankCard (newId : jsstring) : Card := mkCard newId [] (Some []) (Some []).

Definition withCards (d : Deck) (cs : list Card) : Deck := mkDeck (deck_id d) (name d) cs.

Definition withFront (c : Card) (v : jsstring) : Card := mkCard (card_id c) v (back c) (hint c).

(** [startModeChooser]. *)
Definition startModeChooser (deckId : jsstring) (s : State) : State :=
  setScreen (setActiveDeckId s (Some deckId)) mode.

(** [startEditDeck]; the JSON round trip copies the deck. *)
Definition startEditDeck (deckId : jsstring) (s : State) : State :=
  match find (fun d => bool_decide (deck_id d = deckId)) (decks s) with
  | None => s
  | Some original => setScreen (setIsNewDeck (setDraftDeck s (Some original)) false) editor
  end.

(** [addDeck], with the result of its [uid()]. *)
Definition addDeck (newId : jsstring) (s : State) : State :=
  let newDeck := mkDeck newId (JsString.lit "New Deck") [] in
  let s1 := setDraftDeck s (Some newDeck) in
  let s2 := setIsNewDeck s1 true in
  let s3 := setActiveDeckId s2 (Some (deck_id newDeck)) in
  setScreen s3 editor.

(** [addBlankCard], as [addDraftCard] calls it; the focus bookkeeping lives
    in refs outside the state. *)
Definition addDraftCard (newId : jsstring) (s : State) : State :=
  match draftDeck s with
  | None => s
  | Some d => setDraftDeck s (Some (withCards d (cards d ++ [blankCard newId])))
  end.

(** The updater passed to [setDraftDeck] by [onFrontChange]. *)
Definition frontChanged (cid value newId : jsstring) (prev : Deck) : Deck :=
  match list_find (fun c => card_id c = cid) (cards prev) with
  | None => prev
  | Some (idx, c) =>
      let wasEmpty := negb (JsString.nonempty (front c)) in
      let cs := <[idx := withFront c value]> (cards prev) in
      let hasTrailingBlank :=
        existsb (fun c => negb (JsString.nonempty (front c)) && falsy (back c) && falsy (hint c)) cs in
      if wasEmpty && JsString.nonempty (JsString.trim value) && negb hasTrailingBlank
      then withCards prev (cs ++ [blankCard newId])
      else withCards prev cs
  end.

(** [onFrontChange]. *)
Definition onFrontChange (cid value newId : jsstring) (s : State) : State :=
  match draftDeck s with
  | None => s
  | Some prev => setDraftDeck s (Some (frontChanged cid value newId prev))
  end.

(** [updateDraftCard] with a patch built by [patch]. *)
Definition updateDraftCard (cid : jsstring) (patch : Card -> Card) (s : State) : State :=
  match draftDeck s with
  | None => s
  | Some d =>
      setDraftDeck s
        (Some (withCards d (map (fun c => if bool_decide (card_id c = cid) then patch c else c)
                                (cards d))))
  end.

Definition patchBack (v : jsstring) (c : Card) : Card := mkCard (card_id c) (front c) (Some v) (hint c).

Definition patchHint (v : jsstring) (c : Card) : Card := mkCard (card_id c) (front c) (back c) (Some v).

(** [removeDraftCard]. *)
Definition removeDraftCard (cid : jsstring) (s : State) : State :=
  match draftDeck s with
  | None => s
  | Some d => setDraftDeck s (Some (withCards d (filter (fun c => card_id c <> cid) (cards d))))
  end.

(** The name field of the editor: [setDraftDeck({ ...draftDeck, name })]. *)
Definition setDraftName (v : jsstring) (s : State) : State :=
  match draftDeck s with
  | None => s
  | Some d => setDraftDeck s (Some (mkDeck (deck_id d) v (cards d)))
  end.

(** The object built for one card by the [map] callback of [saveDraft];
    [fresh] is what [uid()] returns if it is called. On a string [x], the
    expression [x || e] with [e] the empty string is [x] itself. *)
Definition cleanCard (fresh : jsstring) (c : Card) : Card :=
  mkCard (JsString.or (card_id c) fresh)
         (JsString.trim (JsString.or (front c) []))
         (JsString.or_undefined (JsString.trim (JsString.or_empty (back c))))
         (JsString.or_undefined (JsString.trim (JsString.or_empty (hint c)))).

(** The object [clean] of [saveDraft]. [uids i] is the fresh id on offer to
    the card at position [i]. An array is truthy, so [cards || []] is
    [cards]. *)
Definition cleanDraft (uids : nat -> jsstring) (d : Deck) : Deck :=
  mkDeck (deck_id d)
         (JsString.or (JsString.trim (JsString.or (name d) [])) (JsString.lit "Untitled Deck"))
         (filter (fun c => 0 < length (front c))
                 (imap (fun i c => cleanCard (uids i) c) (cards d))).

(** [saveDraft], run to completion; [created] is the id of the record the
    store answered to the POST, if it answered one. *)
Definition saveDraft (uids : nat -> jsstring) (created : option jsstring) (s : State) : State :=
  match draftDeck s with
  | None => s
  | Some draft =>
      let clean := cleanDraft uids draft in
      let clean :=
        if isNewDeck s then
          match created with
          | Some i =>
              if JsString.nonempty i && negb (bool_decide (i = deck_id clean))
              then mkDeck i (name clean) (cards clean) else clean
          | None => clean
          end
        else clean in
      let s1 :=
        if isNewDeck s then setDecks s (decks s ++ [clean])
        else setDecks s (map (fun d => if bool_decide (deck_id d = deck_id clean) then clean else d)
                             (decks s)) in
      let s2 := setActiveDeckId s1 (Some (deck_id clean)) in
      let s3 := setDraftDeck s2 None in
      let s4 := setIsNewDeck s3 false in
      setScreen s4 mode
  end.

(** [discardDraft]. *)
Definition discardDraft (s : State) : State :=
  let s1 := setDraftDeck s None in
  if isNewDeck s then setScreen (setActiveDeckId (setIsNewDeck s1 false) None) home
  else setScreen s1 mode.

(** [deleteDeck], run to completion. *)
Definition deleteDeck (confirmed : bool) (deckId : jsstring) (s : State) : State :=
  if confirmed then
    let s1 := setDecks s (filter (fun x => deck_id x <> deckId) (decks s)) in
    let s2 := if bool_decide (activeDeckId s = Some deckId) then setActiveDeckId s1 None else s1 in
    setScreen (setDraftDeck s2 None) home
  else s.

(** The [onClick] of the back button. *)
Definition backButton (confirmed : bool) (s : State) : State :=
  match screen s, draftDeck s with
  | editor, Some _ => if confirmed then discardDraft s else s
  | practice, _ | test, _ | results, _ => setShowBack (setScreen s mode) false
  | mode, _ => setScreen s home
  | _, _ => s
  end.

(** The session listener of the cast effect. *)
Definition sessionChanged (present : bool) (s : State) : State :=
  setIsCasting (setCastSession s present) present.

(** ** Events *)

(** What can happen between two renders: a click on a control, an answer of
    the remote store, a change of the cast session. *)
Inductive event :=
| ServerDecks (ds : list Deck)
| CastSessionChanged (present : bool)
| Back (confirmed : bool)
| StartModeChooser (deckId : jsstring)
| AddDeck (newId : jsstring)
| StartPractice
| StartTest (rnd : rand)
| StartEditDeck
| Flip
| ShuffleNow (rnd : rand)
| NextPractice (ok : bool)
| AnswerTest (ok : bool)
| BackToDeck
| SetDraftName (v : jsstring)
| SaveDraft (uids : nat -> jsstring) (created : option jsstring)
| DiscardDraft
| DeleteDeck (confirmed : bool)
| FrontChange (cid value newId : jsstring)
| UpdateBack (cid v : jsstring)
| UpdateHint (cid v : jsstring)
| RemoveDraftCard (cid : jsstring)
| AddDraftCard (newId : jsstring).

Definition on (sc : Screen) (s : State) : bool := bool_decide (screen s = sc).

Definition hasDeck (s : State) : bool :=
  match activeDeck s with Some _ => true | None => false end.

Definition hasDraft (s : State) : bool :=
  match draftDeck s with Some _ => true | None => false end.

(** Whether the control behind an event is on screen, read off the
    conditions of the JSX ([screen === "practice" && activeDeck && ...]).
    Answers of the store and cast session changes need no control. *)
Definition rendered (ev : event) (s : State) : bool :=
  match ev with
  | ServerDecks _ | CastSessionChanged _ => true
  | Back _ => negb (on home s)
  | StartModeChooser deckId => on home s && bool_decide (deckId ∈ map deck_id (decks s))
  | AddDeck _ => on home s
  | StartPractice => (on mode s || on results s) && hasDeck s
  | StartTest _ => on mode s && hasDeck s || on results s
  | StartEditDeck => (on mode s || on practice s) && hasDeck s
  | Flip | ShuffleNow _ | NextPractice _ => on practice s && hasDeck s
  | AnswerTest _ => on test s && hasDeck s
  | BackToDeck => on results s
  | DeleteDeck _ => on editor s && hasDraft s && negb (isNewDeck s)
  | SetDraftName _ | SaveDraft _ _ | DiscardDraft | FrontChange _ _ _
  | UpdateBack _ _ | UpdateHint _ _ | RemoveDraftCard _ | AddDraftCard _ =>
      on editor s && hasDraft s
  end.

(** The handler an event runs. *)
Definition handle (ev : event) (s : State) : State :=
  match ev with
  | ServerDecks ds => setDecks s ds
  | CastSessionChanged present => sessionChanged present s
  | Back confirmed => backButton confirmed s
  | StartModeChooser deckId => startModeChooser deckId s
  | AddDeck newId => addDeck newId s
  | StartPractice => setScreen s practice
  | StartTest rnd => startTest rnd s
  | StartEditDeck =>
      match activeDeck s with Some d => startEditDeck (deck_id d) s | None => s end
  | Flip => flip s
  | ShuffleNow rnd => shuffleNow rnd s
  | NextPractice ok => nextPractice ok s
  | AnswerTest ok => answerTest ok s
  | BackToDeck => setScreen s mode
  | SetDraftName v => setDraftName v s
  | SaveDraft uids created => saveDraft uids created s
  | DiscardDraft => discardDraft s
  | DeleteDeck confirmed =>
      match draftDeck s with Some d => deleteDeck confirmed (deck_id d) s | None => s end
  | FrontChange cid value newId => onFrontChange cid value newId s
  | UpdateBack cid v => updateDraftCard cid (patchBack v) s
  | UpdateHint cid v => updateDraftCard cid (patchHint v) s
  | RemoveDraftCard cid => removeDraftCard cid s
  | AddDraftCard newId => addDraftCard newId s
  end.

(** The dependency array [[screen, activeDeckId, isCasting]] of the practice
    effect. *)
Definition practiceDeps (s : State) : Screen * option jsstring * bool :=
  (screen s, activeDeckId s, isCasting s).

(** One turn of the event loop: an event whose control is not rendered
    cannot be delivered; otherwise its handler runs, React renders, and the
    practice effect runs if one of its dependencies changed. [rnd] feeds the
    shuffle of that effect. *)
Definition dispatch (rnd : rand) (ev : event) (s : State) : State :=
  if rendered ev s then
    let s' := handle ev s in
    if decide (practiceDeps s' = practiceDeps s) then s' else practiceEffect rnd s'
  else s.

(** The states the application can be in. *)
Inductive reachable : State -> Prop :=
| reachable_init ds : reachable (init ds)
| reachable_dispatch rnd ev s : reachable s -> reachable (dispatch rnd ev s).

(** A run of answers given in practice mode. *)
Fixpoint practiceRun (oks : list bool) (s : State) : State :=
  match oks with
  | [] => s
  | ok :: oks' => practiceRun oks' (nextPractice ok s)
  end.

(** [queue[currentIdx]], the index of the card on display. *)
Definition currentSlot (s : State) : JsArray.slot := JsArray.get (queue s) (currentIdx s).

(** A run of answers given in test mode, delivered through the event loop. *)
Fixpoint testRun (rnd : rand) (oks : list bool) (s : State) : State :=
  match oks with
  | [] => s
  | ok :: oks' => testRun rnd oks' (dispatch rnd (AnswerTest ok) s)
  end.

(** The number of correct answers in a run. *)
Definition tally (oks : list bool) : nat := sum_list (Nat.b2n <$> oks).

(** Whether a cast message shows a card. *)
Definition isCardMessage (m : CastMessage) : bool :=
  match m with MsgCard _ _ _ _ => true | MsgResults _ => false end.

(** ** Session invariants *)

(** A queue dealt from a deck: the indices [0..n-1] in some order. *)
Definition is_deal (q : jsarray) : Prop := exists n, q ≡ₚ Some <$> seq 0 n.

(** What every reachable state satisfies: practice stays at the front of
    its queue, and both queues are deals. *)
Record session_inv (s : State) : Prop := {
  inv_idx : currentIdx s = 0;
  inv_queue : is_deal (queue s);
  inv_testQueue : is_deal (testQueue s)
}.

(** [x] stands in [q] ahead of the first [c]. *)
Definition ahead_of (x c : JsArray.slot) (q : jsarray) : Prop :=
  exists l1 l2, q = l1 ++ c :: l2 /\ x ∈ l1 /\ c ∉ l1.

(** ** Sample data *)

(** Three draws: [0], [1/2] and [99/100]. *)
Definition draw_low : draw := Draw 0 ltac:(split; [discriminate | reflexivity]).

Definition draw_mid : draw := Draw (1 # 2) ltac:(split; [discriminate | reflexivity]).

Definition draw_high : draw := Draw (99 # 100) ltac:(split; [discriminate | reflexivity]).

Definition rnd_mid : rand := fun _ => draw_mid.

(** The draws under which three cards are dealt in the order [1, 0, 2]. *)
Definition rnd_BAC : rand := fun k => match k with 0 => draw_high | _ => draw_low end.

Definition sampleCard (s : string) : Card := mkCard (JsString.lit s) (JsString.lit s) None None.

Definition deckABC : Deck :=
  mkDeck (JsString.lit "abc") (JsString.lit "ABC")
         [sampleCard "A"; sampleCard "B"; sampleCard "C"].

Definition deckPair : Deck :=
  mkDeck (JsString.lit "pair") (JsString.lit "Pair") [sampleCard "A"; sampleCard "B"].

Definition deckOne : Deck := mkDeck (JsString.lit "one") (JsString.lit "One") [sampleCard "A"].

Definition deckEmpty : Deck := mkDeck (JsString.lit "none") (JsString.lit "Empty") [].

(** The application after a tap on the only deck of the home screen. *)
Definition chosen (d : Deck) : State :=
  dispatch rnd_mid (StartModeChooser (deck_id d)) (init [d]).

(** Then after a tap on Start Practice, the deal made with [rnd]. *)
Definition practising (rnd : rand) (d : Deck) : State :=
  dispatch rnd StartPractice (chosen d).

(** Or after a tap on Start Test. *)
Definition testing (rnd : rand) (d : Deck) : State :=
  dispatch rnd_mid (StartTest rnd) (chosen d).

(** A deck made in the application and saved without a card: New Deck on
    the home screen of an empty collection, then Save. *)
Definition savedNewDeck : State :=
  dispatch rnd_mid (SaveDraft (fun _ => []) None)
    (dispatch rnd_mid (AddDeck (JsString.lit "new")) (init [])).

(** Start Test on that deck. *)
Definition testingNewDeck : State := dispatch rnd_mid (StartTest rnd_mid) savedNewDeck.

(** Start Practice on that deck. *)
Definition practisingNewDeck : State := dispatch rnd_mid StartPractice savedNewDeck.

(** ** Further invariants *)

(** A card message numbers its card from [1] up to the size of the queue. *)
Definition wellNumbered (m : CastMessage) : Prop :=
  match m with
  | MsgCard _ _ idx total => 1 <= idx <= total
  | MsgResults _ => True
  end.

(** What every reachable state satisfies besides [session_inv]. *)
Record counters_inv (s : State) : Prop := {
  inv_cast : castSession s = isCasting s;
  inv_stats : correct (stats s) <= seen (stats s);
  inv_total : score_total (testScore s) = length (testQueue s);
  inv_testIdx : testIdx s < length (testQueue s) \/ (testQueue s = [] /\ testIdx s = 0);
  inv_live : screen s = test -> score_correct (testScore s) <= testIdx s;
  inv_score : score_correct (testScore s) <= testIdx s + 1;
  inv_sent : Forall wellNumbered (sent s)
}.

(** The events that write the deck collection. *)
Definition writesDecks (ev : event) : bool :=
  match ev with
  | ServerDecks _ | SaveDraft _ _ | DeleteDeck _ => true
  | _ => false
  end.

(** A practice session started while a cast session is held. *)
Definition casting (rnd : rand) (d : Deck) : State :=
  dispatch rnd StartPractice
    (dispatch rnd_mid (StartModeChooser (deck_id d))
       (dispatch rnd_mid (CastSessionChanged true) (init [d]))).

(** ** Editor predicates *)

(** The test [onFrontChange] makes for a blank card. *)
Definition isBlankCard (c : Card) : bool :=
  negb (JsString.nonempty (front c)) && falsy (back c) && falsy (hint c).

(** A card in the form [saveDraft] leaves it in. *)
Definition tidyCard (c : Card) : Prop :=
  card_id c <> [] /\ front c <> [] /\ JsString.trim (front c) = front c /\
  back c = JsString.or_undefined (JsString.trim (JsString.or_empty (back c))) /\
  hint c = JsString.or_undefined (JsString.trim (JsString.or_empty (hint c))).

(** A deck in the form [saveDraft] leaves it in. *)
Definition tidyDeck (d : Deck) : Prop :=
  name d <> [] /\ JsString.trim (name d) = name d /\ Forall tidyCard (cards d).

(** The updater [toggleCardExpansion] passes to [setExpandedCards]: a copy
    of the set with [cardId] taken out if it was in, put in if it was not. *)
Definition toggleCardExpansion (cardId : jsstring) (prev : gset jsstring) : gset jsstring :=
  if decide (cardId ∈ prev) then prev ∖ {[cardId]} else prev ∪ {[cardId]}.

(** * Properties *)

(** ** The random index *)

Lemma floor_scaled_lt (r : draw) (m : nat) : 0 < m -> floor_scaled r m < m.
Proof.
  intros Hm. unfold floor_scaled.
  destruct r as [x [Hlo Hhi]]; cbn [draw_val].
  set (z := inject_Z (Z.of_nat m)).
  assert (Hz : (0 < z)%Q).
  { unfold z. rewrite <- (Zlt_Qlt 0). lia. }
  assert (Hnonneg : (0 <= Qfloor (x * z))%Z).
  { change 0%Z with (Qfloor 0). apply Qfloor_resp_le.
    apply Qmult_le_0_compat; [exact Hlo | apply Qlt_le_weak, Hz]. }
  assert (Hbelow : (Qfloor (x * z) < Z.of_nat m)%Z).
  { rewrite Zlt_Qlt. eapply Qle_lt_trans; [apply Qfloor_le|].
    fold z. rewrite <- (Qmult_1_l z) at 2.
    apply Qmult_lt_compat_r; assumption. }
  lia.
Qed.

(** ** Array primitives *)

Lemma get_lookup (a : jsarray) (i : nat) (x : JsArray.slot) :
  a !! i = Some x -> JsArray.get a i = x.
Proof. unfold JsArray.get. intros ->. reflexivity. Qed.

Lemma get_ge (a : jsarray) (i : nat) : length a <= i -> JsArray.get a i = None.
Proof. unfold JsArray.get. intros H. rewrite lookup_ge_None_2; [reflexivity | lia]. Qed.

Lemma set_lt (a : jsarray) (i : nat) (v : JsArray.slot) :
  i < length a -> JsArray.set a i v = <[i:=v]> a.
Proof. unfold JsArray.set. intros H. rewrite decide_True; auto. Qed.

(** Exchanging two cells inside the array permutes it. *)
Lemma swap_Permutation (a : jsarray) (i j : nat) :
  i < length a -> j < length a -> JsArray.swap a i j ≡ₚ a.
Proof.
  intros Hi Hj. unfold JsArray.swap.
  destruct (lookup_lt_is_Some_2 a i Hi) as [y Hy].
  destruct (lookup_lt_is_Some_2 a j Hj) as [x Hx].
  rewrite (get_lookup _ _ _ Hx), (get_lookup _ _ _ Hy).
  rewrite (set_lt a i) by lia.
  rewrite set_lt by (rewrite length_insert; lia).
  apply Permutation_inj. split; [by rewrite !length_insert|].
  exists (fun k => if decide (k = i) then j else if decide (k = j) then i else k).
  split.
  - intros k1 k2. repeat case_decide; lia.
  - intros k. destruct (decide (k = j)) as [->|Hkj].
    + rewrite list_lookup_insert_eq by (rewrite length_insert; lia).
      case_decide; subst; [congruence | done].
    + rewrite list_lookup_insert_ne by done.
      destruct (decide (k = i)) as [->|Hki].
      * by rewrite list_lookup_insert_eq.
      * by rewrite list_lookup_insert_ne.
Qed.

Lemma swap_length (a : jsarray) (i j : nat) :
  i < length a -> j < length a -> length (JsArray.swap a i j) = length a.
Proof. intros Hi Hj. apply Permutation_length, swap_Permutation; assumption. Qed.

(** ** The shuffle *)

Lemma shuffle_loop_Permutation (rnd : rand) (i calls : nat) (a : jsarray) :
  i < length a -> shuffle_loop rnd calls i a ≡ₚ a.
Proof.
  revert calls a. induction i as [|i IH]; intros calls a Hi; cbn [shuffle_loop]; [done|].
  assert (Hj : floor_scaled (rnd calls) (S i + 1) < S i + 1) by (apply floor_scaled_lt; lia).
  rewrite IH by (rewrite swap_length; lia).
  apply swap_Permutation; lia.
Qed.

Lemma shuffleArray_Permutation (rnd : rand) (arr : jsarray) : shuffleArray rnd arr ≡ₚ arr.
Proof.
  unfold shuffleArray. destruct arr as [|x arr]; [done|].
  apply shuffle_loop_Permutation. simpl. lia.
Qed.

Lemma shuffleArray_length (rnd : rand) (arr : jsarray) :
  length (shuffleArray rnd arr) = length arr.
Proof. apply Permutation_length, shuffleArray_Permutation. Qed.

Lemma indices_seq (d : Deck) : indices d = Some <$> seq 0 (length (cards d)).
Proof. unfold indices. apply imap_seq_0. Qed.

Lemma shuffle_swaps_spec (rnd : rand) (i calls : nat) (a : jsarray) :
  shuffle_loop rnd calls i a =
  foldl (fun b p => JsArray.swap b p.1 p.2) a (shuffle_swaps rnd calls i).
Proof. revert calls a. induction i as [|i IH]; intros calls a; simpl; [done|]. apply IH. Qed.

Lemma shuffle_swaps_fst (rnd : rand) (i calls : nat) :
  (shuffle_swaps rnd calls i).*1 = reverse (seq 1 i).
Proof.
  revert calls. induction i as [|i IH]; intros calls; [done|].
  simpl shuffle_swaps. rewrite fmap_cons, IH. simpl fst.
  rewrite seq_S, reverse_app. reflexivity.
Qed.

Lemma shuffle_swaps_le (rnd : rand) (i calls : nat) :
  Forall (fun p => p.2 <= p.1) (shuffle_swaps rnd calls i).
Proof.
  revert calls. induction i as [|i IH]; intros calls; cbn [shuffle_swaps]; constructor; [|apply IH].
  cbn [fst snd]. pose proof (floor_scaled_lt (rnd calls) (S i + 1)). lia.
Qed.

(** ** Requeueing *)

Lemma requeue_Permutation (ok : bool) (i : nat) (q : jsarray) :
  i < length q -> requeue ok i q ≡ₚ q.
Proof.
  intros Hi. destruct (lookup_lt_is_Some_2 q i Hi) as [x Hx].
  unfold requeue, JsArray.splice_cur, JsArray.splice_out, JsArray.push, JsArray.splice_in.
  rewrite (get_lookup _ _ _ Hx).
  transitivity (x :: delete i q); [|symmetry; by apply delete_Permutation].
  destruct ok.
  - by rewrite Permutation_app_comm.
  - by rewrite <- Permutation_middle, take_drop.
Qed.

Lemma requeue_length (ok : bool) (i : nat) (q : jsarray) :
  i < length q -> length (requeue ok i q) = length q.
Proof. intros Hi. apply Permutation_length, requeue_Permutation, Hi. Qed.

Lemma wrapIdx_lt (i : nat) (q : jsarray) : i < length q -> wrapIdx i q = i.
Proof. intros Hi. unfold wrapIdx. rewrite decide_False; [done | lia]. Qed.

(** ** Invariants of the reachable states *)

Lemma is_deal_nil : is_deal [].
Proof. by exists 0. Qed.

Lemma is_deal_shuffle (rnd : rand) (d : Deck) : is_deal (shuffleArray rnd (indices d)).
Proof. exists (length (cards d)). by rewrite shuffleArray_Permutation, indices_seq. Qed.

Lemma is_deal_requeue (ok : bool) (i : nat) (q : jsarray) :
  i < length q -> is_deal q -> is_deal (requeue ok i q).
Proof. intros Hi [n Hn]. exists n. by rewrite requeue_Permutation. Qed.

Lemma is_deal_NoDup (q : jsarray) : is_deal q -> NoDup q.
Proof.
  intros [n Hn]. rewrite Hn. apply NoDup_fmap_2; [apply _ | apply NoDup_seq].
Qed.

Lemma init_inv (ds : list Deck) : session_inv (init ds).
Proof. split; [done | apply is_deal_nil ..]. Qed.

Ltac split_handler :=
  repeat match goal with
    | |- context [match ?x with _ => _ end] => destruct x eqn:?
    end.

Lemma sendCastMessage_inv (m : CastMessage) (s : State) :
  session_inv s -> session_inv (sendCastMessage m s).
Proof. intros [Hi Hq Ht]. unfold sendCastMessage. destruct (castSession s); by split. Qed.

Lemma practiceEffect_inv (rnd : rand) (s : State) :
  session_inv s -> session_inv (practiceEffect rnd s).
Proof.
  intros Hs. unfold practiceEffect. split_handler; try done;
    try apply sendCastMessage_inv; destruct Hs as [Hi Hq Ht];
    (split; cbn; [done | apply is_deal_shuffle | done]).
Qed.

Lemma shuffleNow_inv (rnd : rand) (s : State) :
  session_inv s -> session_inv (shuffleNow rnd s).
Proof.
  intros [Hi Hq Ht]. unfold shuffleNow. split_handler; split; cbn; auto using is_deal_shuffle.
Qed.

Lemma nextPractice_inv (ok : bool) (s : State) :
  session_inv s -> session_inv (nextPractice ok s).
Proof.
  intros Hs. unfold nextPractice. split_handler; try done;
    try apply sendCastMessage_inv; destruct Hs as [Hi Hq Ht];
    assert (Hlt : currentIdx s < length (queue s)) by lia;
    (split; cbn; [by rewrite wrapIdx_lt by (by rewrite requeue_length) | by apply is_deal_requeue | done]).
Qed.

Lemma startTest_inv (rnd : rand) (s : State) :
  session_inv s -> session_inv (startTest rnd s).
Proof.
  intros Hs. unfold startTest. split_handler; try done;
    try apply sendCastMessage_inv; destruct Hs as [Hi Hq Ht];
    (split; cbn; [done | done | apply is_deal_shuffle]).
Qed.

Lemma answerTest_inv (ok : bool) (s : State) :
  session_inv s -> session_inv (answerTest ok s).
Proof.
  intros Hs. unfold answerTest. cbv zeta. split_handler;
    try apply sendCastMessage_inv; destruct Hs as [Hi Hq Ht]; by split.
Qed.

Lemma handle_inv (ev : event) (s : State) : session_inv s -> session_inv (handle ev s).
Proof.
  intros Hs.
  destruct ev; cbn [handle];
    auto using shuffleNow_inv, nextPractice_inv, startTest_inv, answerTest_inv;
    destruct Hs as [Hi Hq Ht];
    unfold sessionChanged, backButton, discardDraft, startModeChooser, addDeck, flip,
      startEditDeck, setDraftName, saveDraft, deleteDeck, onFrontChange, updateDraftCard,
      removeDraftCard, addDraftCard;
    split_handler; by split.
Qed.

Lemma dispatch_inv (rnd : rand) (ev : event) (s : State) :
  session_inv s -> session_inv (dispatch rnd ev s).
Proof.
  intros Hs. unfold dispatch. destruct (rendered ev s); [|done].
  case_decide; auto using handle_inv, practiceEffect_inv.
Qed.

Theorem reachable_inv (s : State) : reachable s -> session_inv s.
Proof. induction 1; auto using init_inv, dispatch_inv. Qed.

(** ** What [nextPractice] does to each cell *)

Lemma sendCastMessage_fields (m : CastMessage) (s : State) :
  let s' := sendCastMessage m s in
  decks s' = decks s /\ screen s' = screen s /\ activeDeckId s' = activeDeckId s /\
  queue s' = queue s /\ currentIdx s' = currentIdx s /\ showBack s' = showBack s /\
  stats s' = stats s /\ testQueue s' = testQueue s /\ testIdx s' = testIdx s /\
  testScore s' = testScore s /\ isCasting s' = isCasting s /\ castSession s' = castSession s.
Proof. unfold sendCastMessage. destruct (castSession s) eqn:E; cbn; by rewrite ?E. Qed.

Lemma nextPractice_noop (ok : bool) (s : State) :
  activeDeck s = None \/ queue s = [] -> nextPractice ok s = s.
Proof.
  intros H. unfold nextPractice. destruct (activeDeck s); [|done].
  destruct H as [H|H]; [done|]. rewrite H. done.
Qed.

Lemma nextPractice_fields (ok : bool) (s : State) (d : Deck) :
  activeDeck s = Some d -> queue s <> [] ->
  let s' := nextPractice ok s in
  let q := requeue ok (currentIdx s) (queue s) in
  queue s' = q /\ currentIdx s' = wrapIdx (currentIdx s) q /\ showBack s' = false /\
  stats s' = mkStats (seen (stats s) + 1) (correct (stats s) + Nat.b2n ok) /\
  decks s' = decks s /\ activeDeckId s' = activeDeckId s /\ screen s' = screen s.
Proof.
  intros Hd Hq. unfold nextPractice. rewrite Hd.
  rewrite decide_False by (by destruct (queue s)).
  cbv zeta.
  destruct (isCasting s && _); [|done].
  match goal with |- context [sendCastMessage ?m ?t] =>
    destruct (sendCastMessage_fields m t) as (-> & -> & -> & -> & -> & -> & -> & _) end.
  done.
Qed.

Lemma nextPractice_activeDeck (ok : bool) (s : State) :
  activeDeck (nextPractice ok s) = activeDeck s.
Proof.
  destruct (activeDeck s) as [d|] eqn:Hd; [|by rewrite nextPractice_noop; auto].
  destruct (decide (queue s = [])) as [Hq|Hq]; [by rewrite nextPractice_noop; auto|].
  destruct (nextPractice_fields ok s d Hd Hq) as (_ & _ & _ & _ & Hdecks & Hid & _).
  unfold activeDeck in *. by rewrite Hdecks, Hid.
Qed.

Lemma reachable_idx_lt (s : State) :
  reachable s -> queue s <> [] -> currentIdx s < length (queue s).
Proof.
  intros Hr Hq. destruct (reachable_inv s Hr) as [-> _ _].
  destruct (queue s); [done | simpl; lia].
Qed.

(** ** Shuffle, conservation, position and reveal *)

(** C4. For every [n], shuffling the indices [0..n-1] returns a permutation
    of them, of length [n]. The result is the fold of the swaps [(i, j)] of
    the loop, whose [i] run from the last index [n-1] down to [1] and whose
    [j] is at or before [i]. The empty array shuffles to the empty array,
    and the array a session shuffles is [0..n-1] for the [n] cards of its
    deck. *)
Theorem shuffleArray_fisher_yates (rnd : rand) (n : nat) :
  let arr : jsarray := Some <$> seq 0 n in
  let swaps := shuffle_swaps rnd 0 (n - 1) in
  shuffleArray rnd arr ≡ₚ arr /\
  length (shuffleArray rnd arr) = n /\
  shuffleArray rnd arr = foldl (fun b p => JsArray.swap b p.1 p.2) arr swaps /\
  swaps.*1 = reverse (seq 1 (n - 1)) /\
  Forall (fun p => p.2 <= p.1) swaps /\
  shuffleArray rnd [] = [] /\
  (forall d : Deck, indices d = Some <$> seq 0 (length (cards d))).
Proof.
  intros arr swaps.
  assert (Hlen : length arr = n) by (unfold arr; by rewrite length_fmap, length_seq).
  split; [apply shuffleArray_Permutation|].
  split; [by rewrite shuffleArray_length|].
  split; [unfold shuffleArray, swaps; rewrite Hlen; apply shuffle_swaps_spec|].
  split; [apply shuffle_swaps_fst|].
  split; [apply shuffle_swaps_le|].
  split; [reflexivity | apply indices_seq].
Qed.

(** C5. In every reachable state with a non-empty queue, a practice advance
    leaves the length of the queue unchanged and permutes the queue; so a
    queue that was a permutation of [0..n-1] still is one, without
    duplicates. *)
Theorem nextPractice_conserves_queue (s : State) (ok : bool) :
  reachable s -> queue s <> [] ->
  length (queue (nextPractice ok s)) = length (queue s) /\
  queue (nextPractice ok s) ≡ₚ queue s /\
  forall n, queue s ≡ₚ Some <$> seq 0 n ->
    queue (nextPractice ok s) ≡ₚ Some <$> seq 0 n /\ NoDup (queue (nextPractice ok s)).
Proof.
  intros Hr Hq.
  assert (Hperm : queue (nextPractice ok s) ≡ₚ queue s).
  { destruct (activeDeck s) as [d|] eqn:Hd; [|by rewrite nextPractice_noop; auto].
    destruct (nextPractice_fields ok s d Hd Hq) as (-> & _).
    apply requeue_Permutation, reachable_idx_lt; assumption. }
  split; [by apply Permutation_length|]. split; [done|].
  intros n Hn. split; [by rewrite Hperm|].
  apply is_deal_NoDup. exists n. by rewrite Hperm.
Qed.

(** C10. On a non-empty queue with the position inside it, a practice
    advance rebuilds a queue of the same length, so the test
    [currentIdx >= q.length] fails, the wrap to the front is not taken, and
    the position after the call is the position before it. *)
Theorem nextPractice_keeps_position (s : State) (ok : bool) :
  queue s <> [] -> currentIdx s < length (queue s) ->
  let q := requeue ok (currentIdx s) (queue s) in
  length q = length (queue s) /\
  ~ length q <= currentIdx s /\
  wrapIdx (currentIdx s) q = currentIdx s /\
  currentIdx (nextPractice ok s) = currentIdx s.
Proof.
  intros Hq Hlt q.
  assert (Hlen : length q = length (queue s)) by (by apply requeue_length).
  split; [done|]. split; [lia|]. split; [apply wrapIdx_lt; lia|].
  destruct (activeDeck s) as [d|] eqn:Hd; [|by rewrite nextPractice_noop; auto].
  destruct (nextPractice_fields ok s d Hd Hq) as (_ & -> & _).
  apply wrapIdx_lt. fold q. lia.
Qed.

(** C9. [flip] applied twice gives back the state it started from, so
    [showBack] has its original value; applied once it leaves the queue, the
    position and the statistics as they were. *)
Theorem flip_involutive (s : State) :
  flip (flip s) = s /\
  showBack (flip (flip s)) = showBack s /\
  showBack (flip s) = negb (showBack s) /\
  queue (flip s) = queue s /\
  currentIdx (flip s) = currentIdx s /\
  stats (flip s) = stats s.
Proof.
  destruct s. unfold flip, setShowBack. cbn. rewrite negb_involutive. done.
Qed.

(** ** The order of the practice queue *)

Lemma requeue_head (ok : bool) (h : JsArray.slot) (tl : jsarray) :
  requeue ok 0 (h :: tl) =
  if ok then tl ++ [h]
  else take (Nat.min (length tl) 2) tl ++ h :: drop (Nat.min (length tl) 2) tl.
Proof. reflexivity. Qed.

Lemma ahead_of_insert (x c h : JsArray.slot) (l : jsarray) (k : nat) :
  ahead_of x c l -> h <> c -> ahead_of x c (take k l ++ h :: drop k l).
Proof.
  intros (l1 & l2 & -> & Hx & Hc) Hh.
  destruct (decide (k <= length l1)) as [Hk|Hk].
  - exists (take k l1 ++ h :: drop k l1), l2. split; [|split].
    + rewrite take_app_le, drop_app_le by done. by rewrite <- !app_assoc.
    + rewrite <- (take_drop k l1) in Hx. apply elem_of_app in Hx as [Hx|Hx].
      * apply elem_of_app. by left.
      * apply elem_of_app. right. by right.
    + rewrite elem_of_app, elem_of_cons. intros [H|[H|H]]; [|congruence|].
      * apply Hc. by apply (subseteq_take k).
      * apply Hc. by apply (subseteq_drop k).
  - exists l1. destruct (k - length l1) as [|m] eqn:Hm; [lia|].
    exists (take m l2 ++ h :: drop m l2). split; [|done].
    rewrite take_app_ge, drop_app_ge by lia. rewrite Hm. simpl.
    by rewrite <- app_assoc.
Qed.

Lemma ahead_of_requeue (ok : bool) (x c h : JsArray.slot) (tl : jsarray) :
  ahead_of x c tl -> h <> c -> ahead_of x c (requeue ok 0 (h :: tl)).
Proof.
  intros Ha Hh. rewrite requeue_head. destruct ok; [|by apply ahead_of_insert].
  rewrite <- (take_drop (length tl) tl) at 1.
  rewrite (drop_ge tl (length tl)) by done.
  rewrite <- app_assoc. simpl.
  replace [h] with (h :: drop (length tl) tl) by (by rewrite drop_ge).
  by apply ahead_of_insert.
Qed.

Lemma practiceRun_meets (d : Deck) (x c : JsArray.slot) (oks : list bool) (t : State) :
  activeDeck t = Some d -> currentIdx t = 0 -> ahead_of x c (queue t) ->
  currentSlot (practiceRun oks t) = c ->
  exists k, k < length oks /\ currentSlot (practiceRun (take k oks) t) = x.
Proof.
  revert t. induction oks as [|ok oks IH]; intros t Hd Hi (l1 & l2 & Hq & Hx & Hc) Hend.
  - exfalso. cbn in Hend. unfold currentSlot in Hend. rewrite Hq, Hi in Hend.
    destruct l1 as [|h l1]; [by apply elem_of_nil in Hx|].
    cbn in Hend. subst h. apply Hc. left.
  - destruct l1 as [|h l1]; [by apply elem_of_nil in Hx|].
    destruct (decide (h = x)) as [->|Hne].
    { exists 0. split; [simpl; lia|]. cbn. unfold currentSlot. by rewrite Hq, Hi. }
    assert (Hq' : queue t <> []) by (by rewrite Hq).
    destruct (nextPractice_fields ok t d Hd Hq') as (Hqn & Hin & _).
    destruct (IH (nextPractice ok t)) as (k & Hk & Hmeet).
    + by rewrite nextPractice_activeDeck.
    + rewrite Hin, Hi. unfold wrapIdx. by case_decide.
    + rewrite Hqn, Hi, Hq. apply ahead_of_requeue.
      * exists l1, l2. split; [done|]. split.
        -- apply elem_of_cons in Hx as [Hx|Hx]; [congruence | done].
        -- intros H. apply Hc. by right.
      * intros ->. apply Hc. left.
    + exact Hend.
    + exists (S k). split; [simpl; lia | exact Hmeet].
Qed.

(** C2. In every reachable state with an active deck and a non-empty queue,
    a practice advance with [correct = true] removes the current entry from
    the queue and appends it at the end. In any run of further advance calls
    that ends with that entry current again, every other entry the queue
    held at the time of the call has been the current one at an earlier
    point of the run. *)
Theorem nextPractice_correct_goes_last (s : State) (d : Deck) :
  reachable s -> activeDeck s = Some d -> queue s <> [] ->
  let cur := currentSlot s in
  let s1 := nextPractice true s in
  queue s !! currentIdx s = Some cur /\
  queue s1 = delete (currentIdx s) (queue s) ++ [cur] /\
  forall (oks : list bool) (x : JsArray.slot),
    x ∈ queue s -> x <> cur ->
    currentSlot (practiceRun oks s1) = cur ->
    exists k, k < length oks /\ currentSlot (practiceRun (take k oks) s1) = x.
Proof.
  intros Hr Hd Hq cur s1.
  destruct (reachable_inv s Hr) as [Hi Hdeal _].
  destruct (nextPractice_fields true s d Hd Hq) as (Hqn & Hin & _).
  destruct (queue s) as [|h tl] eqn:Hqs; [done|].
  assert (Hcur : cur = h) by (unfold cur, currentSlot; by rewrite Hqs, Hi).
  rewrite Hi. split; [by rewrite Hcur|].
  split; [unfold s1; by rewrite Hqn, Hi, requeue_head, Hcur|].
  intros oks x Hx Hne Hend.
  apply (practiceRun_meets d x cur oks s1); [| | |exact Hend].
  - unfold s1. by rewrite nextPractice_activeDeck.
  - unfold s1. rewrite Hin. unfold wrapIdx. rewrite Hi. by case_decide.
  - unfold s1. rewrite Hqn, Hi, requeue_head, Hcur.
    exists tl, []. split; [done|]. split.
    + apply elem_of_cons in Hx as [Hx|Hx]; [congruence | done].
    + apply is_deal_NoDup in Hdeal. by apply NoDup_cons in Hdeal as [Hnotin _].
Qed.

(** ** Sample sessions *)

Lemma sample_reachable (rnd : rand) (d : Deck) : reachable (practising rnd d).
Proof. unfold practising, chosen. repeat constructor. Qed.

(** Three cards dealt [B, A, C]: after Got it on [B] and two more, [B] is
    current again and [C] has been current in between. *)
Lemma nextPractice_correct_goes_last_witness :
  let s := practising rnd_BAC deckABC in
  reachable s /\ activeDeck s = Some deckABC /\ queue s <> [] /\
  queue (nextPractice true s) = [Some 0; Some 2; Some 1] /\
  exists k, k < 2 /\
    currentSlot (practiceRun (take k [true; true]) (nextPractice true s)) = Some 2.
Proof.
  intros s.
  assert (Hr : reachable s) by apply sample_reachable.
  assert (Hd : activeDeck s = Some deckABC) by (vm_compute; reflexivity).
  assert (Hq : queue s <> []) by (vm_compute; discriminate).
  destruct (nextPractice_correct_goes_last s deckABC Hr Hd Hq) as (_ & Hlast & Hlater).
  split; [exact Hr|]. split; [exact Hd|]. split; [exact Hq|]. split.
  - rewrite Hlast. vm_compute. reflexivity.
  - apply (Hlater [true; true] (Some 2)).
    + apply list_elem_of_In. vm_compute. auto.
    + vm_compute. discriminate.
    + vm_compute. reflexivity.
Defined.

(** The same deal after Wrong on [B]: still three entries, still a deal. *)
Lemma nextPractice_conserves_queue_witness :
  let s := practising rnd_BAC deckABC in
  reachable s /\ queue s <> [] /\
  length (queue (nextPractice false s)) = 3 /\
  queue (nextPractice false s) ≡ₚ Some <$> seq 0 3.
Proof.
  intros s.
  assert (Hr : reachable s) by apply sample_reachable.
  assert (Hq : queue s <> []) by (vm_compute; discriminate).
  destruct (nextPractice_conserves_queue s false Hr Hq) as (Hlen & _ & Hdeal).
  split; [exact Hr|]. split; [exact Hq|]. split.
  - rewrite Hlen. vm_compute. reflexivity.
  - apply Hdeal. vm_compute. apply perm_swap.
Defined.

(** The same deal after Got it on [B]: the position has not moved. *)
Lemma nextPractice_keeps_position_witness :
  let s := practising rnd_BAC deckABC in
  queue s <> [] /\ currentIdx s < length (queue s) /\
  currentIdx (nextPractice true s) = currentIdx s.
Proof.
  intros s.
  assert (Hq : queue s <> []) by (vm_compute; discriminate).
  assert (Hlt : currentIdx s < length (queue s)) by (vm_compute; lia).
  split; [exact Hq|]. split; [exact Hlt|].
  apply (nextPractice_keeps_position s true Hq Hlt).
Defined.

(** C6. In every reachable state with an active deck and a non-empty queue,
    a practice advance with [correct = false] removes the current entry and
    puts it back at index [min(position + 2, length of the shortened
    queue)]; [stats.seen] grows by one and [stats.correct] stays. With the
    queue [[B, A, C]] (indices [[1, 0, 2]]) at position [0] and fresh
    statistics, the call yields [[A, C, B]] and [{seen: 1, correct: 0}]. *)
Theorem nextPractice_wrong_reinserts (s : State) (d : Deck) :
  reachable s -> activeDeck s = Some d -> queue s <> [] ->
  let cur := currentSlot s in
  let rest := delete (currentIdx s) (queue s) in
  let k := Nat.min (currentIdx s + 2) (length rest) in
  let s' := nextPractice false s in
  (queue s !! currentIdx s = Some cur /\
   length rest = length (queue s) - 1 /\
   queue s' = take k rest ++ cur :: drop k rest /\
   queue s' !! k = Some cur /\
   seen (stats s') = seen (stats s) + 1 /\
   correct (stats s') = correct (stats s)) /\
  (let s0 := setStats (setCurrentIdx (setQueue s [Some 1; Some 0; Some 2]) 0) (mkStats 0 0) in
   queue (nextPractice false s0) = [Some 0; Some 2; Some 1] /\
   stats (nextPractice false s0) = mkStats 1 0).
Proof.
  intros Hr Hd Hq cur rest k s'. split.
  - pose proof (reachable_idx_lt s Hr Hq) as Hlt.
    destruct (lookup_lt_is_Some_2 _ _ Hlt) as [x Hx].
    assert (Hcur : cur = x) by (by apply get_lookup).
    assert (Hrest : length rest = length (queue s) - 1).
    { unfold rest. rewrite length_delete by eauto. lia. }
    destruct (nextPractice_fields false s d Hd Hq) as (Hqn & _ & _ & Hst & _).
    assert (Hqs : queue s' = take k rest ++ cur :: drop k rest).
    { unfold s'. rewrite Hqn. unfold requeue, JsArray.splice_in, JsArray.splice_out,
        JsArray.splice_cur, clamp. fold rest cur.
      rewrite Nat.max_0_l, (Nat.min_comm (length rest)). done. }
    split; [by rewrite Hcur|]. split; [done|]. split; [done|]. split.
    + rewrite Hqs. apply list_lookup_middle. rewrite length_take. unfold k. lia.
    + unfold s'. rewrite Hst. cbn. split; lia.
  - intros s0.
    assert (Hd0 : activeDeck s0 = Some d) by exact Hd.
    assert (Hq0 : queue s0 <> []) by done.
    destruct (nextPractice_fields false s0 d Hd0 Hq0) as (-> & _ & _ & -> & _).
    done.
Qed.

(** Three cards dealt [B, A, C]: Wrong on [B] gives [A, C, B]. *)
Lemma nextPractice_wrong_reinserts_witness :
  let s := practising rnd_BAC deckABC in
  reachable s /\ activeDeck s = Some deckABC /\ queue s <> [] /\
  queue s = [Some 1; Some 0; Some 2] /\
  queue (nextPractice false s) = [Some 0; Some 2; Some 1] /\
  seen (stats (nextPractice false s)) = 1 /\
  correct (stats (nextPractice false s)) = 0.
Proof.
  intros s.
  assert (Hr : reachable s) by apply sample_reachable.
  assert (Hd : activeDeck s = Some deckABC) by (vm_compute; reflexivity).
  assert (Hq : queue s <> []) by (vm_compute; discriminate).
  destruct (nextPractice_wrong_reinserts s deckABC Hr Hd Hq)
    as ((_ & _ & Hqs & _ & Hseen & Hcorrect) & _).
  split; [exact Hr|]. split; [exact Hd|]. split; [exact Hq|].
  split; [vm_compute; reflexivity|]. split; [|split].
  - rewrite Hqs. vm_compute. reflexivity.
  - rewrite Hseen. vm_compute. reflexivity.
  - rewrite Hcorrect. vm_compute. reflexivity.
Defined.

(** ** The test pass *)

Lemma practiceEffect_off (rnd : rand) (s : State) :
  screen s <> practice -> practiceEffect rnd s = s.
Proof.
  intros H. unfold practiceEffect. destruct (activeDeck s); [|done].
  by rewrite decide_False.
Qed.

Lemma startTest_fields (rnd : rand) (s : State) (d : Deck) :
  activeDeck s = Some d ->
  let s' := startTest rnd s in
  testQueue s' = shuffleArray rnd (indices d) /\ testIdx s' = 0 /\
  testScore s' = mkScore 0 (length (shuffleArray rnd (indices d))) /\
  showBack s' = false /\ screen s' = test /\
  decks s' = decks s /\ activeDeckId s' = activeDeckId s /\
  sent s' =
    sent s ++
    (if castSession s && isCasting s && bool_decide (0 < length (cards d))
     then [MsgCard (card_at d (JsArray.get (shuffleArray rnd (indices d)) 0)) false 1
                   (length (shuffleArray rnd (indices d)))]
     else []).
Proof.
  intros Hd. unfold startTest. rewrite Hd. cbv zeta.
  unfold sendCastMessage. cbn.
  destruct (isCasting s), (bool_decide (0 < length (cards d))), (castSession s);
    cbn; by rewrite ?app_nil_r.
Qed.

Lemma answerTest_fields (ok : bool) (s : State) :
  let s' := answerTest ok s in
  testQueue s' = testQueue s /\
  testScore s' = mkScore (score_correct (testScore s) + Nat.b2n ok) (score_total (testScore s)) /\
  decks s' = decks s /\ activeDeckId s' = activeDeckId s /\
  isCasting s' = isCasting s /\
  (length (testQueue s) <= testIdx s + 1 -> screen s' = results /\ testIdx s' = testIdx s) /\
  (testIdx s + 1 < length (testQueue s) -> screen s' = screen s /\ testIdx s' = testIdx s + 1).
Proof.
  unfold answerTest. cbv zeta. unfold sendCastMessage.
  split_handler; cbn; repeat split; done || lia.
Qed.

Lemma answerTest_activeDeck (ok : bool) (s : State) :
  activeDeck (answerTest ok s) = activeDeck s.
Proof.
  destruct (answerTest_fields ok s) as (_ & _ & Hdecks & Hid & _).
  unfold activeDeck. by rewrite Hdecks, Hid.
Qed.

Lemma dispatch_answer (rnd : rand) (ok : bool) (s : State) (d : Deck) :
  screen s = test -> activeDeck s = Some d ->
  dispatch rnd (AnswerTest ok) s = answerTest ok s.
Proof.
  intros Hsc Hd. unfold dispatch, rendered, on, hasDeck. rewrite Hsc, Hd.
  rewrite bool_decide_eq_true_2 by done. cbn [andb handle].
  case_decide as Hdeps; [done|]. apply practiceEffect_off.
  destruct (answerTest_fields ok s) as (_ & _ & _ & _ & _ & Hlast & Hnext).
  destruct (decide (length (testQueue s) <= testIdx s + 1)) as [Hle|Hgt].
  - destruct (Hlast Hle) as [-> _]. done.
  - destruct Hnext as [-> _]; [lia|]. by rewrite Hsc.
Qed.

Lemma dispatch_answer_off (rnd : rand) (ok : bool) (s : State) :
  screen s <> test \/ activeDeck s = None ->
  dispatch rnd (AnswerTest ok) s = s.
Proof.
  intros H. unfold dispatch, rendered, on, hasDeck.
  destruct H as [H| ->].
  - by rewrite bool_decide_eq_false_2.
  - by rewrite andb_false_r.
Qed.

Lemma testRun_progress (rnd : rand) (d : Deck) (oks : list bool) (t : State) :
  screen t = test -> activeDeck t = Some d ->
  testIdx t + length oks <= length (testQueue t) ->
  let t' := testRun rnd oks t in
  testQueue t' = testQueue t /\
  score_total (testScore t') = score_total (testScore t) /\
  score_correct (testScore t') = score_correct (testScore t) + tally oks /\
  (testIdx t + length oks < length (testQueue t) ->
     screen t' = test /\ testIdx t' = testIdx t + length oks) /\
  (testIdx t + length oks = length (testQueue t) -> oks <> [] ->
     screen t' = results /\ testIdx t' = length (testQueue t) - 1).
Proof.
  revert t. induction oks as [|ok oks IH]; intros t Hsc Hd Hlen; cbn [testRun].
  - cbn. repeat split; try done; lia.
  - cbn [length] in Hlen. rewrite (dispatch_answer rnd ok t d Hsc Hd).
    destruct (answerTest_fields ok t) as (Hq & Hscore & _ & _ & _ & Hlast & Hnext).
    destruct (decide (length (testQueue t) <= testIdx t + 1)) as [Hle|Hgt].
    + destruct oks as [|ok' oks]; [|cbn [length] in Hlen; lia].
      destruct (Hlast Hle) as [Hres Hidx]. cbn [testRun].
      rewrite Hq, Hscore, Hres, Hidx. unfold tally. cbn.
      repeat split; try done; lia.
    + destruct Hnext as [Hsc' Hidx]; [lia|].
      destruct (IH (answerTest ok t)) as (Hq' & Htot & Hcor & Hmid & Hend).
      * by rewrite Hsc'.
      * by rewrite answerTest_activeDeck.
      * rewrite Hidx, Hq. lia.
      * rewrite Hq', Htot, Hcor, Hq, Hscore, Hidx in *. unfold tally in *. cbn in *.
        split; [done|]. split; [done|]. split; [lia|]. split.
        -- intros H. destruct Hmid as [-> ->]; [lia|]. split; [done | lia].
        -- intros H _. destruct oks as [|ok' oks]; [cbn in *; lia|].
           apply Hend; [lia | done].
Qed.

(** C7, as the code has it. A test started on a deck of [n >= 1] cards
    deals a permutation of [0..n-1] without repeats and stands at position
    [0] on the test screen. After [k < n] answers the session is still on
    the test screen at position [k]; the [n]-th answer leaves the position
    at [n - 1] and moves the session to the results screen, where the answer
    controls are not rendered and a further answer changes nothing. The
    queue is never touched, [total] stays [n], and [score.correct] counts
    the correct answers. *)
Theorem test_pass_is_linear (rnd0 rnd : rand) (s : State) (d : Deck) (oks : list bool) :
  activeDeck s = Some d -> 0 < length (cards d) -> length oks <= length (cards d) ->
  let n := length (cards d) in
  let s1 := startTest rnd0 s in
  let t := testRun rnd oks s1 in
  testQueue s1 ≡ₚ Some <$> seq 0 n /\ NoDup (testQueue s1) /\
  testIdx s1 = 0 /\ screen s1 = test /\
  testQueue t = testQueue s1 /\
  testScore t = mkScore (tally oks) n /\
  (length oks < n -> screen t = test /\ testIdx t = length oks) /\
  (length oks = n ->
     screen t = results /\ testIdx t = n - 1 /\
     forall rnd' ok, dispatch rnd' (AnswerTest ok) t = t).
Proof.
  intros Hd Hn Hlen n s1 t.
  destruct (startTest_fields rnd0 s d Hd) as (Hq & Hidx & Hscore & _ & Hsc & Hdecks & Hid & _).
  fold s1 in Hq, Hidx, Hscore, Hsc, Hdecks, Hid.
  assert (Hperm : testQueue s1 ≡ₚ Some <$> seq 0 n).
  { rewrite Hq, shuffleArray_Permutation. by rewrite indices_seq. }
  assert (Hqlen : length (testQueue s1) = n).
  { rewrite Hperm. by rewrite length_fmap, length_seq. }
  assert (Hd1 : activeDeck s1 = Some d).
  { unfold activeDeck. rewrite Hdecks, Hid. exact Hd. }
  destruct (testRun_progress rnd d oks s1 Hsc Hd1) as (Hqt & Htot & Hcor & Hmid & Hend).
  { rewrite Hidx, Hqlen. fold n in Hlen. simpl. lia. }
  fold t in Hqt, Htot, Hcor, Hmid, Hend.
  rewrite Hidx, Hqlen in Hmid, Hend. rewrite Hscore in Htot, Hcor. cbn in *.
  rewrite shuffleArray_length, indices_seq, length_fmap, length_seq in Htot. fold n in Htot.
  split; [done|]. split; [apply is_deal_NoDup; by exists n|].
  split; [done|]. split; [done|]. split; [done|]. split.
  { destruct (testScore t). cbn in *. by subst. }
  split; [done|]. intros Hall.
  destruct Hend as [Hres Hlast]; [done | destruct oks; [cbn in *; lia | done] |].
  split; [done|]. split; [done|].
  intros rnd' ok. apply dispatch_answer_off. left. by rewrite Hres.
Qed.

(** A test of two cards: Got it, then Wrong, ends on the results screen
    with one correct answer out of two. *)
Lemma test_pass_is_linear_witness :
  let s := chosen deckPair in
  let t := testRun rnd_mid [true; false] (startTest rnd_mid s) in
  activeDeck s = Some deckPair /\ 0 < length (cards deckPair) /\
  length [true; false] <= length (cards deckPair) /\
  testScore t = mkScore 1 2 /\ screen t = results.
Proof.
  intros s t.
  assert (Hd : activeDeck s = Some deckPair) by (vm_compute; reflexivity).
  assert (Hn : 0 < length (cards deckPair)) by (vm_compute; lia).
  assert (Hlen : length [true; false] <= length (cards deckPair)) by (vm_compute; lia).
  destruct (test_pass_is_linear rnd_mid rnd_mid s deckPair [true; false] Hd Hn Hlen)
    as (_ & _ & _ & _ & _ & Hscore & _ & Hend).
  split; [exact Hd|]. split; [exact Hn|]. split; [exact Hlen|]. split.
  - exact Hscore.
  - apply Hend. reflexivity.
Defined.

(** C7 fails as stated: on a one-card deck the only answer is given at
    position [0 < 1], does not increment the position, and ends the session
    with the position still short of [n = 1]. *)
Lemma test_position_counterexample :
  let s1 := testing rnd_mid deckOne in
  let t := dispatch rnd_mid (AnswerTest true) s1 in
  screen s1 = test /\ testIdx s1 < length (cards deckOne) /\
  testIdx t <> testIdx s1 + 1 /\
  screen t = results /\ testIdx t <> length (cards deckOne).
Proof. vm_compute. repeat split; (reflexivity || lia || discriminate). Qed.

(** ** Sessions without cards *)

Lemma answerTest_last_sent (ok : bool) (s : State) :
  length (testQueue s) <= testIdx s + 1 ->
  exists ms, sent (answerTest ok s) = sent s ++ ms /\
             Forall (fun m => isCardMessage m = false) ms.
Proof.
  intros Hle. unfold answerTest. cbv zeta. rewrite decide_True by done.
  unfold sendCastMessage. destruct (isCasting s); cbn; [destruct (castSession s); cbn|].
  - eexists. split; [done|]. by repeat constructor.
  - exists []. by rewrite app_nil_r.
  - exists []. by rewrite app_nil_r.
Qed.

Lemma currentTestCard_empty (s : State) :
  activeDeck s = None \/ testQueue s = [] -> currentTestCard s = None.
Proof.
  intros H. unfold currentTestCard. destruct (activeDeck s); [|done].
  destruct H as [H|H]; [done|]. by rewrite H.
Qed.

Lemma testRun_empty (rnd : rand) (oks : list bool) (t : State) :
  testQueue t = [] ->
  testQueue (testRun rnd oks t) = [] /\
  exists ms, sent (testRun rnd oks t) = sent t ++ ms /\
             Forall (fun m => isCardMessage m = false) ms.
Proof.
  revert t. induction oks as [|ok oks IH]; intros t Hq; cbn [testRun].
  - split; [done|]. exists []. by rewrite app_nil_r.
  - assert (Hstep : testQueue (dispatch rnd (AnswerTest ok) t) = [] /\
                    exists ms, sent (dispatch rnd (AnswerTest ok) t) = sent t ++ ms /\
                               Forall (fun m => isCardMessage m = false) ms).
    { destruct (decide (screen t = test)) as [Hsc|Hsc];
        [destruct (activeDeck t) as [d|] eqn:Hd|].
      - rewrite (dispatch_answer rnd ok t d Hsc Hd).
        destruct (answerTest_fields ok t) as (-> & _). split; [done|].
        apply answerTest_last_sent. rewrite Hq. simpl. lia.
      - rewrite dispatch_answer_off by (by right). split; [done|].
        exists []. by rewrite app_nil_r.
      - rewrite dispatch_answer_off by (by left). split; [done|].
        exists []. by rewrite app_nil_r. }
    destruct Hstep as (Hq1 & ms1 & Hs1 & Hms1).
    destruct (IH _ Hq1) as (Hq2 & ms2 & Hs2 & Hms2).
    split; [done|]. exists (ms1 ++ ms2).
    split; [by rewrite Hs2, Hs1, <- app_assoc | by apply Forall_app].
Qed.

(** C1, as the code has it. Starting a test on a deck without cards gives
    at once the score [{correct: 0, total: 0}] and an empty queue, shows no
    card and sends none, but leaves the session on the test screen, not on
    the results screen. Whatever answers follow, no card is ever on display
    and no card message is ever sent. *)
Theorem startTest_empty_deck (rnd : rand) (s : State) (d : Deck) :
  activeDeck s = Some d -> cards d = [] ->
  let s1 := startTest rnd s in
  testScore s1 = mkScore 0 0 /\ testQueue s1 = [] /\ screen s1 = test /\
  currentTestCard s1 = None /\ sent s1 = sent s /\
  forall rnd' oks,
    currentTestCard (testRun rnd' oks s1) = None /\
    exists ms, sent (testRun rnd' oks s1) = sent s ++ ms /\
               Forall (fun m => isCardMessage m = false) ms.
Proof.
  intros Hd Hcards s1.
  destruct (startTest_fields rnd s d Hd) as (Hq & Hidx & Hscore & _ & Hsc & Hdecks & Hid & Hsent).
  fold s1 in Hq, Hidx, Hscore, Hsc, Hdecks, Hid, Hsent.
  assert (Hnil : shuffleArray rnd (indices d) = []).
  { unfold indices. by rewrite Hcards. }
  rewrite Hnil in Hq, Hscore. rewrite Hcards in Hsent. cbn in Hsent.
  rewrite andb_false_r, app_nil_r in Hsent.
  split; [done|]. split; [done|]. split; [done|].
  split; [apply currentTestCard_empty; by right|]. split; [done|].
  intros rnd' oks. destruct (testRun_empty rnd' oks s1 Hq) as (Hqt & Hms).
  split; [apply currentTestCard_empty; by right|]. by rewrite <- Hsent.
Qed.

(** A test of the empty sample deck: started on the test screen with a zero
    score, and blank after an answer as well. *)
Lemma startTest_empty_deck_witness :
  let s := chosen deckEmpty in
  activeDeck s = Some deckEmpty /\ cards deckEmpty = [] /\
  testScore (startTest rnd_mid s) = mkScore 0 0 /\
  screen (startTest rnd_mid s) = test /\
  currentTestCard (testRun rnd_mid [false] (startTest rnd_mid s)) = None.
Proof.
  intros s.
  assert (Hd : activeDeck s = Some deckEmpty) by (vm_compute; reflexivity).
  assert (Hc : cards deckEmpty = []) by reflexivity.
  destruct (startTest_empty_deck rnd_mid s deckEmpty Hd Hc)
    as (Hscore & _ & Hsc & _ & _ & Hnext).
  split; [exact Hd|]. split; [exact Hc|]. split; [exact Hscore|]. split; [exact Hsc|].
  apply (Hnext rnd_mid [false]).
Defined.

(** C1 fails as stated: after Start Test on an empty deck the session is on
    the test screen, not on the results screen. *)
Lemma startTest_empty_deck_counterexample :
  let s1 := testing rnd_mid deckEmpty in
  cards deckEmpty = [] /\ testScore s1 = mkScore 0 0 /\
  screen s1 = test /\ screen s1 <> results.
Proof. vm_compute. repeat split; (reflexivity || discriminate). Qed.

(** C3. The claim is what the practice handler does and the test handler
    misses. From an empty collection, New Deck, Save, Start Test reaches a
    test screen with an active deck and an empty queue, where no card is on
    display. There Got it is not a no-op: [answerTest] has no guard, counts
    the answer and switches to the results screen, leaving the score
    [{correct: 1, total: 0}]. On the same deck in practice, Got it leaves
    the state as it is, by the guard at the head of [nextPractice]. *)
Theorem answerTest_unguarded_on_empty_queue :
  let s := testingNewDeck in
  let s' := dispatch rnd_mid (AnswerTest true) s in
  let p := practisingNewDeck in
  reachable s /\ screen s = test /\ activeDeck s <> None /\ testQueue s = [] /\
  testScore s = mkScore 0 0 /\ currentTestCard s = None /\
  s' <> s /\ screen s' = results /\ testScore s' = mkScore 1 0 /\
  reachable p /\ screen p = practice /\ activeDeck p <> None /\ queue p = [] /\
  dispatch rnd_mid (NextPractice true) p = p.
Proof.
  intros s s' p.
  split; [unfold s, testingNewDeck, savedNewDeck; repeat constructor|].
  split; [vm_compute; reflexivity|]. split; [vm_compute; discriminate|].
  split; [vm_compute; reflexivity|]. split; [vm_compute; reflexivity|].
  split; [vm_compute; reflexivity|].
  split; [intros H; apply (f_equal screen) in H; vm_compute in H; discriminate|].
  split; [vm_compute; reflexivity|]. split; [vm_compute; reflexivity|].
  split; [unfold p, practisingNewDeck, savedNewDeck; repeat constructor|].
  split; [vm_compute; reflexivity|]. split; [vm_compute; discriminate|].
  split; vm_compute; reflexivity.
Qed.

(** ** Saving a draft *)

Lemma or_nil_r (a : jsstring) : JsString.or a [] = a.
Proof. by destruct a. Qed.

Lemma or_nonempty (a b : jsstring) : b <> [] -> JsString.or a b <> [].
Proof. intros Hb. unfold JsString.or. by destruct a. Qed.

Lemma cleanCard_front (fresh : jsstring) (c : Card) :
  front (cleanCard fresh c) = JsString.trim (front c).
Proof. unfold cleanCard. cbn. by rewrite or_nil_r. Qed.

Lemma cleanCard_id (fresh : jsstring) (c : Card) :
  card_id c <> [] -> card_id (cleanCard fresh c) = card_id c.
Proof. intros H. unfold cleanCard. cbn. by destruct (card_id c). Qed.

Lemma cleaned_cards (f : nat -> jsstring) (cs : list Card) :
  Forall2 (fun c' c => (exists fresh, c' = cleanCard fresh c) /\
                       front c' = JsString.trim (front c) /\ front c' <> [] /\
                       (card_id c <> [] -> card_id c' = card_id c))
    (filter (fun c => 0 < length (front c)) (imap (fun i c => cleanCard (f i) c) cs))
    (filter (fun c => JsString.trim (front c) <> []) cs).
Proof.
  revert f. induction cs as [|c cs IH]; intros f; [constructor|].
  rewrite imap_cons, !filter_cons.
  pose proof (cleanCard_front (f 0) c) as Hf.
  destruct (decide (0 < length (front (cleanCard (f 0) c)))) as [H1|H1];
    destruct (decide (JsString.trim (front c) <> [])) as [H2|H2].
  - constructor; [|apply IH].
    split; [by eexists|]. split; [done|]. split; [by rewrite Hf|]. apply cleanCard_id.
  - exfalso. rewrite Hf in H1. destruct (JsString.trim (front c)); [simpl in H1; lia | by apply H2].
  - exfalso. rewrite Hf in H1. destruct (JsString.trim (front c)); [done | simpl in H1; lia].
  - apply IH.
Qed.

(** C8. The deck [saveDraft] builds from a draft has a non-empty name: the
    trimmed draft name, or ["Untitled Deck"] when that is empty. Its cards
    are, in order, the draft cards whose trimmed front is non-empty, each in
    its cleaned form: the front trimmed (hence non-empty), the id kept when
    it has one. A draft with a card fronted ["cat"] and a card with an
    empty front keeps exactly the card ["cat"]. That deck is what a new
    draft appends to the collection and what an edited one puts in place of
    every deck with its id. *)
Theorem cleanDraft_saves_valid_cards (uids : nat -> jsstring) (d : Deck) :
  let clean := cleanDraft uids d in
  name clean <> [] /\
  name clean =
    (if JsString.nonempty (JsString.trim (name d)) then JsString.trim (name d)
     else JsString.lit "Untitled Deck") /\
  Forall2 (fun c' c => (exists fresh, c' = cleanCard fresh c) /\
                       front c' = JsString.trim (front c) /\ front c' <> [] /\
                       (card_id c <> [] -> card_id c' = card_id c))
          (cards clean)
          (filter (fun c => JsString.trim (front c) <> []) (cards d)) /\
  (forall did nm i1 b1 h1 i2 b2 h2,
     front <$> cards (cleanDraft uids
                        (mkDeck did nm [mkCard i1 (JsString.lit "cat") b1 h1;
                                        mkCard i2 [] b2 h2]))
     = [JsString.lit "cat"]) /\
  (forall s created,
     exists i, decks (saveDraft uids created (setDraftDeck (setIsNewDeck s true) (Some d)))
               = decks s ++ [mkDeck i (name clean) (cards clean)]) /\
  (forall s created,
     decks (saveDraft uids created (setDraftDeck (setIsNewDeck s false) (Some d)))
     = (fun x => if bool_decide (deck_id x = deck_id d) then clean else x) <$> decks s).
Proof.
  intros clean. split; [|split; [|split; [|split; [|split]]]].
  - apply or_nonempty. discriminate.
  - unfold clean, cleanDraft. cbn. by rewrite or_nil_r.
  - apply cleaned_cards.
  - intros. vm_compute. reflexivity.
  - intros s created. unfold saveDraft. cbn.
    destruct created as [i|]; [destruct (_ && _)|]; by eexists.
  - intros s created. unfold saveDraft. cbn. done.
Qed.

(** * Further properties of the code *)

(** ** Counters and messages *)

Lemma init_counters (ds : list Deck) : counters_inv (init ds).
Proof. split; cbn; auto; (by right) || lia. Qed.

Lemma sendCastMessage_counters (m : CastMessage) (s : State) :
  wellNumbered m -> counters_inv s -> counters_inv (sendCastMessage m s).
Proof.
  intros Hm [H1 H2 H3 H4 H5 H5' H6]. unfold sendCastMessage.
  destruct (castSession s) eqn:Hc; split; cbn; rewrite ?Hc; auto.
  apply Forall_app. split; [done | by constructor].
Qed.

Lemma practiceEffect_counters (rnd : rand) (s : State) :
  counters_inv s -> counters_inv (practiceEffect rnd s).
Proof.
  intros Hs. unfold practiceEffect.
  destruct (activeDeck s) as [d|]; [|done]. case_decide as Hsc; [|done].
  assert (Hbase : counters_inv
    (setStats (setShowBack (setCurrentIdx (setQueue s (shuffleArray rnd (indices d))) 0) false)
              (mkStats 0 0))).
  { destruct Hs as [H1 H2 H3 H4 H5 H5' H6]. split; cbn; auto. }
  destruct (isCasting s && bool_decide (0 < length (cards d))) eqn:Hcast; [|done].
  apply sendCastMessage_counters; [|done].
  apply andb_true_iff in Hcast as [_ Hn]. apply bool_decide_eq_true in Hn.
  cbn. rewrite shuffleArray_length. unfold indices. rewrite length_imap. lia.
Qed.

Lemma requeue_nonempty (ok : bool) (i : nat) (q : jsarray) :
  q <> [] -> requeue ok i q <> [].
Proof.
  intros Hq Hnil. apply (f_equal length) in Hnil. revert Hnil.
  unfold requeue, JsArray.push, JsArray.splice_in, JsArray.splice_out.
  destruct ok; rewrite length_app; cbn; lia.
Qed.

Lemma wrapIdx_in_range (i : nat) (q : jsarray) : q <> [] -> wrapIdx i q < length q.
Proof.
  intros Hq. unfold wrapIdx. case_decide; [|lia].
  destruct q; [done | simpl; lia].
Qed.

Lemma nextPractice_counters (ok : bool) (s : State) :
  counters_inv s -> counters_inv (nextPractice ok s).
Proof.
  intros Hs. unfold nextPractice.
  destruct (activeDeck s) as [d|]; [|done]. case_decide as Hlen; [done|].
  assert (Hq : queue s <> []) by (by destruct (queue s)).
  set (q := requeue ok (currentIdx s) (queue s)).
  cbv zeta.
  match goal with |- counters_inv (if _ then sendCastMessage ?m ?t else ?t) =>
    assert (Hbase : counters_inv t) end.
  { destruct Hs as [H1 H2 H3 H4 H5 H5' H6]. split; cbn; auto. destruct ok; cbn; lia. }
  destruct (isCasting s && _); [|done].
  apply sendCastMessage_counters; [|done].
  cbn. pose proof (wrapIdx_in_range (currentIdx s) q (requeue_nonempty _ _ _ Hq)). lia.
Qed.

Lemma shuffleNow_counters (rnd : rand) (s : State) :
  counters_inv s -> counters_inv (shuffleNow rnd s).
Proof.
  intros [H1 H2 H3 H4 H5 H5' H6]. unfold shuffleNow.
  destruct (activeDeck s); [|done]. split; cbn; auto.
Qed.

Lemma startTest_counters (rnd : rand) (s : State) :
  counters_inv s -> counters_inv (startTest rnd s).
Proof.
  intros Hs. unfold startTest. destruct (activeDeck s) as [d|]; [|done].
  cbv zeta.
  match goal with |- counters_inv (if _ then sendCastMessage ?m ?t else ?t) =>
    assert (Hbase : counters_inv t) end.
  { destruct Hs as [H1 H2 H3 H4 H5 H5' H6]. split; cbn; auto.
    destruct (shuffleArray rnd (indices d)); [by right | left; simpl; lia]. }
  destruct (isCasting s && bool_decide (0 < length (cards d))) eqn:Hcast; [|done].
  apply sendCastMessage_counters; [|done].
  apply andb_true_iff in Hcast as [_ Hn]. apply bool_decide_eq_true in Hn.
  cbn. rewrite shuffleArray_length. unfold indices. rewrite length_imap. lia.
Qed.

Lemma answerTest_counters (ok : bool) (s : State) :
  screen s = test -> counters_inv s -> counters_inv (answerTest ok s).
Proof.
  intros Hon Hs. pose proof Hs as [H1 H2 H3 H4 H5 H5' H6]. specialize (H5 Hon).
  unfold answerTest. cbv zeta.
  case_decide as Hlast.
  - match goal with |- counters_inv (if _ then sendCastMessage ?m ?t else ?t) =>
      assert (Hbase : counters_inv t) end.
    { split; cbn; auto; [done | destruct ok; cbn; lia]. }
    destruct (isCasting s); [|done]. by apply sendCastMessage_counters.
  - assert (Hbase : counters_inv
      (setShowBack (setTestIdx (setTestScore s
         (mkScore (score_correct (testScore s) + Nat.b2n ok) (score_total (testScore s))))
         (testIdx s + 1)) false)).
    { split; cbn; auto; [left; lia | intros _ | ]; destruct ok; cbn; lia. }
    destruct (activeDeck s) as [d|]; [|done].
    destruct (isCasting s && _); [|done].
    apply sendCastMessage_counters; [|done]. cbn. lia.
Qed.

Lemma handle_counters (ev : event) (s : State) :
  rendered ev s = true -> counters_inv s -> counters_inv (handle ev s).
Proof.
  intros Hr Hs.
  destruct ev; cbn [handle];
    auto using shuffleNow_counters, nextPractice_counters, startTest_counters.
  all: try (apply answerTest_counters; [|done];
            cbn in Hr; apply andb_true_iff in Hr as [Hr _];
            by apply bool_decide_eq_true in Hr).
  all: destruct Hs as [H1 H2 H3 H4 H5 H5' H6];
    unfold sessionChanged, backButton, discardDraft, startModeChooser, addDeck, flip,
      startEditDeck, setDraftName, saveDraft, deleteDeck, onFrontChange, updateDraftCard,
      removeDraftCard, addDraftCard;
    split_handler; split; cbn; auto; done || (intros ?; congruence).
Qed.

Lemma dispatch_counters (rnd : rand) (ev : event) (s : State) :
  counters_inv s -> counters_inv (dispatch rnd ev s).
Proof.
  intros Hs. unfold dispatch. destruct (rendered ev s) eqn:Hr; [|done].
  case_decide; auto using handle_counters, practiceEffect_counters.
Qed.

Lemma reachable_counters (s : State) : reachable s -> counters_inv s.
Proof. induction 1; auto using init_counters, dispatch_counters. Qed.

(** X1. [clamp] returns its argument when it lies between the bounds, and
    otherwise the nearer bound; given ordered bounds the result lies between
    them. *)
Theorem clamp_between (n lo hi : nat) :
  lo <= hi ->
  (lo <= clamp n lo hi <= hi) /\
  (lo <= n <= hi -> clamp n lo hi = n) /\
  (n < lo -> clamp n lo hi = lo) /\
  (hi < n -> clamp n lo hi = hi).
Proof. unfold clamp. lia. Qed.

Lemma clamp_between_witness :
  0 <= 2 /\ clamp 5 0 2 = 2 /\ clamp 1 0 2 = 1.
Proof.
  split; [lia|]. split.
  - apply (clamp_between 5 0 2); lia.
  - apply (clamp_between 1 0 2); lia.
Defined.

(** X2. Whatever the user does, practice stays at the front of its queue:
    [currentIdx] is [0] in every reachable state, and the practice queue
    and the test queue are each a permutation of [0..n-1] for some [n],
    without duplicates or [undefined] entries. *)
Theorem practice_position_is_front (s : State) :
  reachable s ->
  currentIdx s = 0 /\
  (exists n, queue s ≡ₚ Some <$> seq 0 n) /\ NoDup (queue s) /\
  (exists n, testQueue s ≡ₚ Some <$> seq 0 n) /\ NoDup (testQueue s) /\
  (None ∉ queue s) /\ (None ∉ testQueue s).
Proof.
  intros Hr. destruct (reachable_inv s Hr) as [Hi Hq Ht].
  assert (Hsome : forall q : jsarray, is_deal q -> None ∉ q).
  { intros q [n Hn] Hin. rewrite Hn in Hin.
    apply list_elem_of_fmap in Hin as (i & Hi' & _). discriminate. }
  repeat split; auto using is_deal_NoDup.
Qed.

Lemma practice_position_is_front_witness :
  reachable (dispatch rnd_mid (NextPractice true) (practising rnd_BAC deckABC)) /\
  currentIdx (dispatch rnd_mid (NextPractice true) (practising rnd_BAC deckABC)) = 0.
Proof.
  assert (Hr : reachable (dispatch rnd_mid (NextPractice true) (practising rnd_BAC deckABC))).
  { constructor. apply sample_reachable. }
  split; [exact Hr|]. apply (practice_position_is_front _ Hr).
Defined.

(** X3. In every reachable state the practice statistics are consistent:
    [stats.correct] never exceeds [stats.seen]. *)
Theorem practice_stats_bounded (s : State) :
  reachable s -> correct (stats s) <= seen (stats s).
Proof. intros Hr. apply reachable_counters, Hr. Qed.

Lemma practice_stats_bounded_witness :
  reachable (practising rnd_BAC deckABC) /\
  correct (stats (practising rnd_BAC deckABC)) <= seen (stats (practising rnd_BAC deckABC)).
Proof.
  split; [apply sample_reachable|].
  apply practice_stats_bounded, sample_reachable.
Defined.

(** X4. In every reachable state [testScore.total] is the length of the
    test queue. When that queue is not empty, the position is inside it and
    [testScore.correct] is at most [total]; on the test screen it is at
    most the position. When the queue is empty, [correct] is at most [1]. *)
Theorem test_score_bounded (s : State) :
  reachable s ->
  score_total (testScore s) = length (testQueue s) /\
  (testQueue s <> [] ->
     testIdx s < length (testQueue s) /\
     score_correct (testScore s) <= score_total (testScore s)) /\
  (screen s = test -> score_correct (testScore s) <= testIdx s) /\
  (testQueue s = [] -> score_correct (testScore s) <= 1).
Proof.
  intros Hr. destruct (reachable_counters s Hr) as [_ _ Htot Hidx Hlive Hsc _].
  split; [done|]. split; [|split; [done|]].
  - intros Hq. destruct Hidx as [Hidx|[Hnil _]]; [|done]. split; [done | lia].
  - intros Hq. destruct Hidx as [Hidx|[_ Hz]]; [rewrite Hq in Hidx; simpl in Hidx; lia|].
    lia.
Qed.

Lemma test_score_bounded_witness :
  let s := dispatch rnd_mid (AnswerTest true) (testing rnd_mid deckPair) in
  reachable s /\ testQueue s <> [] /\
  score_correct (testScore s) <= score_total (testScore s).
Proof.
  intros s.
  assert (Hr : reachable s) by (unfold s, testing, chosen; repeat constructor).
  assert (Hq : testQueue s <> []) by (vm_compute; discriminate).
  split; [exact Hr|]. split; [exact Hq|].
  apply (test_score_bounded s Hr). exact Hq.
Defined.

(** X5. Every card message handed to the cast session in a reachable run
    numbers its card from [1] up to the size of the queue
    ([1 <= idx <= total]), and the [isCasting] flag always agrees with the
    presence of a cast session. *)
Theorem cast_messages_numbered (s : State) :
  reachable s ->
  castSession s = isCasting s /\
  forall card showBack idx total,
    MsgCard card showBack idx total ∈ sent s -> 1 <= idx <= total.
Proof.
  intros Hr. destruct (reachable_counters s Hr) as [Hc _ _ _ _ _ Hsent].
  split; [done|]. intros card sb idx total Hin.
  rewrite Forall_forall in Hsent. apply (Hsent _ Hin).
Qed.

Lemma cast_messages_numbered_witness :
  let s := casting rnd_BAC deckABC in
  reachable s /\ sent s = [MsgCard (Some (sampleCard "B")) false 1 3] /\ 1 <= 1 <= 3.
Proof.
  intros s.
  assert (Hr : reachable s) by (unfold s, casting; repeat constructor).
  assert (Hsent : sent s = [MsgCard (Some (sampleCard "B")) false 1 3])
    by (vm_compute; reflexivity).
  split; [exact Hr|]. split; [exact Hsent|].
  destruct (cast_messages_numbered s Hr) as [_ Hnum].
  apply (Hnum (Some (sampleCard "B")) false 1 3). rewrite Hsent. left.
Defined.

(** ** What the handlers leave alone *)

Ltac unfold_handlers :=
  unfold sessionChanged, backButton, discardDraft, startModeChooser, addDeck, flip,
    startEditDeck, setDraftName, saveDraft, deleteDeck, onFrontChange, updateDraftCard,
    removeDraftCard, addDraftCard, shuffleNow, nextPractice, startTest, answerTest,
    practiceEffect.

Lemma handle_silent (ev : event) (s : State) :
  castSession s = false -> ev <> CastSessionChanged true ->
  sent (handle ev s) = sent s /\ castSession (handle ev s) = false.
Proof.
  intros Hc Hev. destruct ev; cbn [handle]; unfold_handlers; unfold sendCastMessage;
    cbn; rewrite ?Hc; split_handler; cbn; rewrite ?Hc; try done.
  destruct present; [congruence | done].
Qed.

Lemma practiceEffect_silent (rnd : rand) (s : State) :
  castSession s = false -> sent (practiceEffect rnd s) = sent s.
Proof.
  intros Hc. unfold practiceEffect, sendCastMessage. cbn. rewrite ?Hc.
  split_handler; cbn; rewrite ?Hc; done.
Qed.

(** X6. While no cast session is held nothing is sent: an event other than
    the arrival of a cast session leaves the log of sent messages as it
    was, whichever handler and effect it runs. *)
Theorem no_session_no_message (rnd : rand) (ev : event) (s : State) :
  castSession s = false -> ev <> CastSessionChanged true ->
  sent (dispatch rnd ev s) = sent s.
Proof.
  intros Hc Hev. unfold dispatch. destruct (rendered ev s); [|done].
  destruct (handle_silent ev s Hc Hev) as [Hsent Hc'].
  case_decide; [done|]. by rewrite practiceEffect_silent.
Qed.

Lemma no_session_no_message_witness :
  let s := practising rnd_BAC deckABC in
  castSession s = false /\ NextPractice false <> CastSessionChanged true /\
  sent (dispatch rnd_mid (NextPractice false) s) = sent s.
Proof.
  intros s.
  assert (Hc : castSession s = false) by (vm_compute; reflexivity).
  assert (Hev : NextPractice false <> CastSessionChanged true) by discriminate.
  split; [exact Hc|]. split; [exact Hev|].
  apply (no_session_no_message rnd_mid (NextPractice false) s Hc Hev).
Defined.

Lemma practiceEffect_decks (rnd : rand) (s : State) :
  decks (practiceEffect rnd s) = decks s /\
  activeDeckId (practiceEffect rnd s) = activeDeckId s /\
  draftDeck (practiceEffect rnd s) = draftDeck s.
Proof.
  unfold practiceEffect, sendCastMessage. split_handler; done.
Qed.

(** X7. Only an answer of the store, a save and a delete write the deck
    collection: every other event, through its handler and the practice
    effect, leaves [decks] as it was. Studying never edits a deck. *)
Theorem sessions_keep_decks (rnd : rand) (ev : event) (s : State) :
  writesDecks ev = false -> decks (dispatch rnd ev s) = decks s.
Proof.
  intros Hev. unfold dispatch. destruct (rendered ev s); [|done].
  assert (Hh : decks (handle ev s) = decks s).
  { destruct ev; try discriminate; cbn [handle]; unfold_handlers; unfold sendCastMessage;
      split_handler; done. }
  case_decide; [done|]. destruct (practiceEffect_decks rnd (handle ev s)) as [-> _]. done.
Qed.

Lemma sessions_keep_decks_witness :
  writesDecks (NextPractice true) = false /\
  decks (dispatch rnd_mid (NextPractice true) (practising rnd_BAC deckABC)) = [deckABC].
Proof.
  split; [reflexivity|].
  rewrite (sessions_keep_decks rnd_mid (NextPractice true) (practising rnd_BAC deckABC));
    [|reflexivity].
  vm_compute. reflexivity.
Defined.

(** ** Practice sessions *)

Lemma practiceEffect_fields (rnd : rand) (s : State) (d : Deck) :
  activeDeck s = Some d -> screen s = practice ->
  let s' := practiceEffect rnd s in
  queue s' = shuffleArray rnd (indices d) /\ currentIdx s' = 0 /\ showBack s' = false /\
  stats s' = mkStats 0 0 /\ decks s' = decks s /\ activeDeckId s' = activeDeckId s /\
  screen s' = practice.
Proof.
  intros Hd Hsc. unfold practiceEffect. rewrite Hd. rewrite decide_True by done.
  cbv zeta. destruct (isCasting s && _); [|by rewrite <- Hsc].
  match goal with |- context [sendCastMessage ?m ?t] =>
    destruct (sendCastMessage_fields m t) as (-> & -> & -> & -> & -> & -> & -> & _) end.
  by rewrite <- Hsc.
Qed.

Lemma deal_lookup (d : Deck) (q : jsarray) (i : nat) (x : JsArray.slot) :
  q ≡ₚ indices d -> q !! i = Some x -> exists c, card_at d x = Some c /\ c ∈ cards d.
Proof.
  intros Hq Hx. apply list_elem_of_lookup_2 in Hx. rewrite Hq, indices_seq in Hx.
  apply list_elem_of_fmap in Hx as (j & -> & Hj). apply elem_of_seq in Hj.
  destruct (lookup_lt_is_Some_2 (cards d) j) as [c Hc]; [lia|].
  exists c. split; [exact Hc | by eapply list_elem_of_lookup_2].
Qed.

(** X8. Start Practice, tapped on the mode or the results screen with an
    active deck, opens the practice screen on a fresh deal: the queue is a
    permutation of the indices of the deck, the position is [0], the card
    shows its front and the statistics are zero. If the deck has cards, a
    card of the deck is on display. *)
Theorem startPractice_deals (rnd : rand) (s : State) (d : Deck) :
  screen s = mode \/ screen s = results -> activeDeck s = Some d ->
  let s' := dispatch rnd StartPractice s in
  screen s' = practice /\
  queue s' ≡ₚ Some <$> seq 0 (length (cards d)) /\
  currentIdx s' = 0 /\ showBack s' = false /\ stats s' = mkStats 0 0 /\
  (cards d <> [] -> exists c, currentCard s' = Some c /\ c ∈ cards d).
Proof.
  intros Hsc Hd s'.
  assert (Hnp : screen s <> practice) by (destruct Hsc as [-> | ->]; done).
  assert (Hs' : s' = practiceEffect rnd (setScreen s practice)).
  { unfold s', dispatch, rendered, on, hasDeck. rewrite Hd.
    destruct Hsc as [Hsc|Hsc]; rewrite Hsc; cbn;
      (rewrite decide_False; [done|]); unfold practiceDeps; cbn; congruence. }
  assert (Hd' : activeDeck (setScreen s practice) = Some d) by exact Hd.
  destruct (practiceEffect_fields rnd (setScreen s practice) d Hd' eq_refl)
    as (Hq & Hi & Hb & Hst & Hdecks & Hid & Hscr).
  rewrite <- Hs' in Hq, Hi, Hb, Hst, Hdecks, Hid, Hscr.
  assert (Hperm : queue s' ≡ₚ indices d) by (rewrite Hq; apply shuffleArray_Permutation).
  split; [done|]. split; [by rewrite Hperm, indices_seq|].
  split; [done|]. split; [done|]. split; [done|].
  intros Hne. unfold currentCard.
  replace (activeDeck s') with (Some d)
    by (unfold activeDeck in *; by rewrite Hdecks, Hid).
  assert (Hlen : length (queue s') = length (cards d)).
  { rewrite Hperm. unfold indices. by rewrite length_imap. }
  assert (Hpos : 0 < length (queue s')) by (rewrite Hlen; destruct (cards d); [done | simpl; lia]).
  rewrite decide_True by done. rewrite Hi.
  destruct (lookup_lt_is_Some_2 (queue s') 0 Hpos) as [x Hx].
  rewrite (get_lookup _ _ _ Hx). by eapply deal_lookup.
Qed.

Lemma startPractice_deals_witness :
  (screen (chosen deckABC) = mode \/ screen (chosen deckABC) = results) /\
  activeDeck (chosen deckABC) = Some deckABC /\
  stats (dispatch rnd_BAC StartPractice (chosen deckABC)) = mkStats 0 0.
Proof.
  assert (Hsc : screen (chosen deckABC) = mode \/ screen (chosen deckABC) = results)
    by (left; vm_compute; reflexivity).
  assert (Hd : activeDeck (chosen deckABC) = Some deckABC) by (vm_compute; reflexivity).
  destruct (startPractice_deals rnd_BAC (chosen deckABC) deckABC Hsc Hd)
    as (_ & _ & _ & _ & Hst & _).
  split; [exact Hsc|]. split; [exact Hd|]. exact Hst.
Defined.

(** X9. Shuffle, with an active deck, deals a fresh permutation of the
    indices of the deck, returns to position [0] and to the front of the
    card, and keeps the statistics of the session; without an active deck
    it does nothing. *)
Theorem shuffleNow_keeps_stats (rnd : rand) (s : State) :
  (forall d, activeDeck s = Some d ->
     queue (shuffleNow rnd s) ≡ₚ Some <$> seq 0 (length (cards d)) /\
     currentIdx (shuffleNow rnd s) = 0 /\ showBack (shuffleNow rnd s) = false) /\
  stats (shuffleNow rnd s) = stats s /\
  screen (shuffleNow rnd s) = screen s /\
  (activeDeck s = None -> shuffleNow rnd s = s).
Proof.
  unfold shuffleNow. destruct (activeDeck s) as [d|]; [|by repeat split].
  split; [|by repeat split].
  intros d' [= <-]. cbn. split; [|done].
  by rewrite shuffleArray_Permutation, indices_seq.
Qed.

Lemma practice_step (ok : bool) (t : State) (d : Deck) (h : JsArray.slot) (tl : jsarray) :
  activeDeck t = Some d -> currentIdx t = 0 -> queue t = h :: tl ->
  activeDeck (nextPractice ok t) = Some d /\
  currentIdx (nextPractice ok t) = 0 /\
  queue (nextPractice ok t) = requeue ok 0 (h :: tl) /\
  stats (nextPractice ok t) = mkStats (seen (stats t) + 1) (correct (stats t) + Nat.b2n ok).
Proof.
  intros Hd Hi Hq.
  assert (Hne : queue t <> []) by (by rewrite Hq).
  destruct (nextPractice_fields ok t d Hd Hne) as (Hqn & Hin & _ & Hst & _).
  split; [by rewrite nextPractice_activeDeck|].
  split; [rewrite Hin, Hi; unfold wrapIdx; by case_decide|].
  split; [by rewrite Hqn, Hi, Hq | done].
Qed.

Lemma practiceRun_counts (d : Deck) (oks : list bool) (t : State) :
  activeDeck t = Some d -> currentIdx t = 0 -> queue t <> [] ->
  stats (practiceRun oks t) =
    mkStats (seen (stats t) + length oks) (correct (stats t) + tally oks) /\
  queue (practiceRun oks t) ≡ₚ queue t /\
  currentIdx (practiceRun oks t) = 0 /\
  activeDeck (practiceRun oks t) = Some d.
Proof.
  revert t. induction oks as [|ok oks IH]; intros t Hd Hi Hq.
  - cbn. unfold tally. cbn. rewrite !Nat.add_0_r. by destruct (stats t).
  - destruct (queue t) as [|h tl] eqn:Hqt; [done|].
    destruct (practice_step ok t d h tl Hd Hi Hqt) as (Hd' & Hi' & Hq' & Hst').
    assert (Hperm : queue (nextPractice ok t) ≡ₚ h :: tl).
    { rewrite Hq'. apply requeue_Permutation. simpl. lia. }
    destruct (IH (nextPractice ok t) Hd' Hi') as (Hst & Hqs & His & Hds).
    { intros Hnil. rewrite Hnil in Hperm. by apply Permutation_nil_cons in Hperm. }
    cbn [practiceRun]. rewrite Hst, Hst'. cbn. unfold tally. cbn.
    split; [f_equal; lia|]. split; [by rewrite Hqs | done].
Qed.

(** X10. A practice session counts its answers: from a reachable state with
    an active deck and a non-empty queue, a run of advance calls adds the
    number of calls to [stats.seen] and the number of correct ones to
    [stats.correct], permutes the queue and stays at position [0]; practice
    never runs out of cards. *)
Theorem practiceRun_counts_answers (s : State) (d : Deck) (oks : list bool) :
  reachable s -> activeDeck s = Some d -> queue s <> [] ->
  stats (practiceRun oks s) =
    mkStats (seen (stats s) + length oks) (correct (stats s) + tally oks) /\
  queue (practiceRun oks s) ≡ₚ queue s /\
  queue (practiceRun oks s) <> [] /\
  currentIdx (practiceRun oks s) = 0.
Proof.
  intros Hr Hd Hq. destruct (reachable_inv s Hr) as [Hi _ _].
  destruct (practiceRun_counts d oks s Hd Hi Hq) as (Hst & Hperm & Hidx & _).
  split; [done|]. split; [done|]. split; [|done].
  intros Hnil. rewrite Hnil in Hperm. by apply Permutation_nil in Hperm.
Qed.

Lemma practiceRun_counts_answers_witness :
  let s := practising rnd_BAC deckABC in
  reachable s /\ activeDeck s = Some deckABC /\ queue s <> [] /\
  stats (practiceRun [true; false; true] s) = mkStats 3 2.
Proof.
  intros s.
  assert (Hr : reachable s) by apply sample_reachable.
  assert (Hd : activeDeck s = Some deckABC) by (vm_compute; reflexivity).
  assert (Hq : queue s <> []) by (vm_compute; discriminate).
  split; [exact Hr|]. split; [exact Hd|]. split; [exact Hq|].
  destruct (practiceRun_counts_answers s deckABC [true; false; true] Hr Hd Hq) as (Hst & _).
  rewrite Hst. vm_compute. reflexivity.
Defined.

(** X11. A practice session whose queue is a deal of the active deck always
    has a card of that deck on display, after any run of advance calls. *)
Theorem practice_always_shows_a_card (s : State) (d : Deck) (oks : list bool) :
  reachable s -> activeDeck s = Some d -> queue s <> [] -> queue s ≡ₚ indices d ->
  exists c, currentCard (practiceRun oks s) = Some c /\ c ∈ cards d.
Proof.
  intros Hr Hd Hq Hdeal. destruct (reachable_inv s Hr) as [Hi _ _].
  destruct (practiceRun_counts d oks s Hd Hi Hq) as (_ & Hperm & Hidx & Hd').
  set (t := practiceRun oks s) in *.
  assert (Hpos : 0 < length (queue t)).
  { rewrite Hperm. destruct (queue s); [done | simpl; lia]. }
  unfold currentCard. rewrite Hd', decide_True by done. rewrite Hidx.
  destruct (lookup_lt_is_Some_2 (queue t) 0 Hpos) as [x Hx].
  rewrite (get_lookup _ _ _ Hx). eapply deal_lookup; [|exact Hx].
  by rewrite Hperm.
Qed.

Lemma practice_always_shows_a_card_witness :
  let s := practising rnd_BAC deckABC in
  reachable s /\ activeDeck s = Some deckABC /\ queue s <> [] /\
  queue s ≡ₚ indices deckABC /\
  exists c, currentCard (practiceRun [false; true] s) = Some c /\ c ∈ cards deckABC.
Proof.
  intros s.
  assert (Hr : reachable s) by apply sample_reachable.
  assert (Hd : activeDeck s = Some deckABC) by (vm_compute; reflexivity).
  assert (Hq : queue s <> []) by (vm_compute; discriminate).
  assert (Hdeal : queue s ≡ₚ indices deckABC) by (vm_compute; apply perm_swap).
  split; [exact Hr|]. split; [exact Hd|]. split; [exact Hq|]. split; [exact Hdeal|].
  apply (practice_always_shows_a_card s deckABC [false; true] Hr Hd Hq Hdeal).
Defined.

(** X12. After Wrong, the missed card is back on display after exactly
    [min(2, n - 1)] further advance calls on a queue of [n] cards, whatever
    the answers to the cards in between, and not before. *)
Theorem nextPractice_wrong_resurfaces (s : State) (d : Deck) (oks : list bool) :
  reachable s -> activeDeck s = Some d -> queue s <> [] ->
  let cur := currentSlot s in
  let s1 := nextPractice false s in
  let k := Nat.min 2 (length (queue s) - 1) in
  (length oks = k -> currentSlot (practiceRun oks s1) = cur) /\
  (length oks < k -> currentSlot (practiceRun oks s1) <> cur).
Proof.
  intros Hr Hd Hq cur s1 k.
  destruct (reachable_inv s Hr) as [Hi Hdeal _].
  apply is_deal_NoDup in Hdeal.
  destruct (queue s) as [|h tl] eqn:Hqs; [done|].
  assert (Hcur : cur = h) by (unfold cur, currentSlot; by rewrite Hqs, Hi).
  destruct (practice_step false s d h tl Hd Hi Hqs) as (Hd1 & Hi1 & Hq1 & _).
  fold s1 in Hd1, Hi1, Hq1. rewrite requeue_head in Hq1.
  apply NoDup_cons in Hdeal as [Hh Hdeal].
  destruct tl as [|a [|b r]]; cbn in Hq1; rewrite ?Nat.min_0_r in Hq1; cbn in Hq1;
    unfold k; cbn [length Nat.sub Nat.min].
  - split; [|lia]. destruct oks; [|done]. intros _. cbn.
    unfold currentSlot. by rewrite Hq1, Hi1.
  - assert (Ha : a <> h) by (intros ->; apply Hh; left).
    split.
    + destruct oks as [|ok [|ok' oks]]; try done. intros _. cbn [practiceRun].
      destruct (practice_step ok s1 d a [h] Hd1 Hi1 Hq1) as (_ & Hi2 & Hq2 & _).
      unfold currentSlot. rewrite Hq2, Hi2. by destruct ok.
    + destruct oks; [|simpl; lia]. intros _. cbn.
      unfold currentSlot. rewrite Hq1, Hi1. cbn. by rewrite Hcur.
  - assert (Ha : a <> h) by (intros ->; apply Hh; left).
    assert (Hb : b <> h) by (intros ->; apply Hh; right; left).
    split.
    + destruct oks as [|ok [|ok' [|ok'' oks]]]; try done. intros _. cbn [practiceRun].
      destruct (practice_step ok s1 d a (b :: h :: r) Hd1 Hi1 Hq1) as (Hd2 & Hi2 & Hq2 & _).
      rewrite requeue_head in Hq2.
      assert (exists r', queue (nextPractice ok s1) = b :: h :: r') as [r' Hq2'].
      { rewrite Hq2. destruct ok; cbn; eauto. }
      destruct (practice_step ok' _ d b (h :: r') Hd2 Hi2 Hq2') as (_ & Hi3 & Hq3 & _).
      unfold currentSlot. rewrite Hq3, Hi3, requeue_head.
      destruct ok'; [done|]. by destruct r'.
    + destruct oks as [|ok [|ok' oks]]; [| |simpl; lia]; intros _.
      * cbn. unfold currentSlot. rewrite Hq1, Hi1. cbn. by rewrite Hcur.
      * cbn [practiceRun].
        destruct (practice_step ok s1 d a (b :: h :: r) Hd1 Hi1 Hq1) as (_ & Hi2 & Hq2 & _).
        unfold currentSlot. rewrite Hq2, Hi2, requeue_head, Hcur. by destruct ok.
Qed.

Lemma nextPractice_wrong_resurfaces_witness :
  let s := practising rnd_BAC deckABC in
  reachable s /\ activeDeck s = Some deckABC /\ queue s <> [] /\
  currentSlot (practiceRun [true; false] (nextPractice false s)) = Some 1.
Proof.
  intros s.
  assert (Hr : reachable s) by apply sample_reachable.
  assert (Hd : activeDeck s = Some deckABC) by (vm_compute; reflexivity).
  assert (Hq : queue s <> []) by (vm_compute; discriminate).
  split; [exact Hr|]. split; [exact Hd|]. split; [exact Hq|].
  destruct (nextPractice_wrong_resurfaces s deckABC [true; false] Hr Hd Hq) as [Hback _].
  rewrite Hback; vm_compute; reflexivity.
Defined.

(** X13. The practice effect also depends on [isCasting]: when a cast
    session arrives or leaves while a deck is being practised, the session
    starts over with a fresh deal at position [0] and zeroed statistics. A
    session notice that does not change [isCasting] leaves the practice
    session as it is. *)
Theorem cast_change_restarts_practice (rnd : rand) (present : bool) (s : State) (d : Deck) :
  screen s = practice -> activeDeck s = Some d ->
  let s' := dispatch rnd (CastSessionChanged present) s in
  (isCasting s <> present ->
     queue s' = shuffleArray rnd (indices d) /\ currentIdx s' = 0 /\
     showBack s' = false /\ stats s' = mkStats 0 0) /\
  (isCasting s = present ->
     queue s' = queue s /\ currentIdx s' = currentIdx s /\
     showBack s' = showBack s /\ stats s' = stats s).
Proof.
  intros Hsc Hd s'. unfold s', dispatch. cbn [rendered handle]. split; intros Hc.
  - rewrite decide_False by (unfold practiceDeps, sessionChanged; cbn; congruence).
    assert (Hd' : activeDeck (sessionChanged present s) = Some d) by exact Hd.
    assert (Hsc' : screen (sessionChanged present s) = practice) by exact Hsc.
    destruct (practiceEffect_fields rnd _ d Hd' Hsc') as (Hq & Hi & Hb & Hst & _).
    done.
  - rewrite decide_True by (unfold practiceDeps, sessionChanged; cbn; congruence). done.
Qed.

Lemma cast_change_restarts_practice_witness :
  let s := nextPractice true (practising rnd_BAC deckABC) in
  screen s = practice /\ activeDeck s = Some deckABC /\
  stats s = mkStats 1 1 /\
  stats (dispatch rnd_mid (CastSessionChanged true) s) = mkStats 0 0.
Proof.
  intros s.
  assert (Hsc : screen s = practice) by (vm_compute; reflexivity).
  assert (Hd : activeDeck s = Some deckABC) by (vm_compute; reflexivity).
  split; [exact Hsc|]. split; [exact Hd|]. split; [vm_compute; reflexivity|].
  destruct (cast_change_restarts_practice rnd_mid true s deckABC Hsc Hd) as [Hre _].
  apply Hre. vm_compute. discriminate.
Defined.

(** ** Test sessions *)

Lemma dispatch_answer_activeDeck (rnd : rand) (ok : bool) (s : State) :
  activeDeck (dispatch rnd (AnswerTest ok) s) = activeDeck s.
Proof.
  unfold dispatch. destruct (rendered (AnswerTest ok) s); [|done]. cbn [handle].
  case_decide; [apply answerTest_activeDeck|].
  destruct (practiceEffect_decks rnd (answerTest ok s)) as (Hdecks & Hid & _).
  unfold activeDeck at 1. rewrite Hdecks, Hid. apply answerTest_activeDeck.
Qed.

Lemma testRun_activeDeck (rnd : rand) (oks : list bool) (s : State) :
  activeDeck (testRun rnd oks s) = activeDeck s.
Proof.
  revert s. induction oks as [|ok oks IH]; intros s; [done|].
  cbn [testRun]. by rewrite IH, dispatch_answer_activeDeck.
Qed.

(** X14. A test pass puts every card of the deck to the user: for each card
    of the active deck there is one step [k] of the pass, below the number
    of cards, at which that card is the one on display whatever the answers
    given before; and until the last answer the display is never blank. *)
Theorem test_pass_shows_every_card (rnd0 rnd : rand) (s : State) (d : Deck) :
  activeDeck s = Some d ->
  let s1 := startTest rnd0 s in
  (forall i c, cards d !! i = Some c ->
     exists k, k < length (cards d) /\ testQueue s1 !! k = Some (Some i) /\
       forall oks, length oks = k -> currentTestCard (testRun rnd oks s1) = Some c) /\
  (forall oks, length oks < length (cards d) ->
     exists c, currentTestCard (testRun rnd oks s1) = Some c /\ c ∈ cards d).
Proof.
  intros Hd s1.
  destruct (startTest_fields rnd0 s d Hd) as (Hq & Hidx & _ & _ & Hsc & Hdecks & Hid & _).
  fold s1 in Hq, Hidx, Hsc, Hdecks, Hid.
  assert (Hperm : testQueue s1 ≡ₚ indices d) by (rewrite Hq; apply shuffleArray_Permutation).
  assert (Hlen : length (testQueue s1) = length (cards d)).
  { rewrite Hperm. unfold indices. by rewrite length_imap. }
  assert (Hd1 : activeDeck s1 = Some d) by (unfold activeDeck; by rewrite Hdecks, Hid).
  assert (Hshow : forall oks k x, length oks = k -> testQueue s1 !! k = Some x ->
            currentTestCard (testRun rnd oks s1) = card_at d x).
  { intros oks k x Hk Hx. pose proof (lookup_lt_Some _ _ _ Hx) as Hlt.
    destruct (testRun_progress rnd d oks s1 Hsc Hd1) as (Hqt & _ & _ & Hmid & _).
    { rewrite Hidx. simpl. lia. }
    destruct Hmid as [_ Hpos]; [rewrite Hidx; simpl; lia|].
    unfold currentTestCard. rewrite testRun_activeDeck, Hd1, Hqt.
    rewrite decide_True by lia. rewrite Hpos, Hidx. cbn.
    rewrite Hk. by rewrite (get_lookup _ _ _ Hx). }
  split.
  - intros i c Hc.
    assert (Hin : Some i ∈ testQueue s1).
    { rewrite Hperm, indices_seq. apply list_elem_of_fmap. exists i. split; [done|].
      apply elem_of_seq. apply lookup_lt_Some in Hc. lia. }
    apply list_elem_of_lookup_1 in Hin as [k Hk].
    exists k. split; [rewrite <- Hlen; by eapply lookup_lt_Some|]. split; [done|].
    intros oks Hoks. by rewrite (Hshow oks k (Some i) Hoks Hk).
  - intros oks Hoks.
    destruct (lookup_lt_is_Some_2 (testQueue s1) (length oks)) as [x Hx]; [lia|].
    rewrite (Hshow oks _ x eq_refl Hx). by eapply deal_lookup.
Qed.

Lemma test_pass_shows_every_card_witness :
  activeDeck (chosen deckPair) = Some deckPair /\
  exists c, currentTestCard (testRun rnd_mid [true] (startTest rnd_mid (chosen deckPair)))
            = Some c /\ c ∈ cards deckPair.
Proof.
  assert (Hd : activeDeck (chosen deckPair) = Some deckPair) by (vm_compute; reflexivity).
  split; [exact Hd|].
  destruct (test_pass_shows_every_card rnd_mid rnd_mid (chosen deckPair) deckPair Hd)
    as [_ Hshown].
  apply (Hshown [true]). vm_compute. lia.
Defined.

(** X15. The score sent to the cast display is the score of the results
    screen: in a reachable state on the test screen, with an active deck
    and a cast session, the last answer of the pass sends exactly one
    message, the results message carrying the [testScore] the call leaves
    behind. *)
Theorem results_message_is_final_score (rnd : rand) (ok : bool) (s : State) (d : Deck) :
  reachable s -> screen s = test -> activeDeck s = Some d -> castSession s = true ->
  length (testQueue s) <= testIdx s + 1 ->
  let s' := dispatch rnd (AnswerTest ok) s in
  screen s' = results /\ sent s' = sent s ++ [MsgResults (testScore s')].
Proof.
  intros Hr Hsc Hd Hc Hlast s'.
  destruct (reachable_counters s Hr) as [Hcast _ Htot _ _ _ _].
  unfold s'. rewrite (dispatch_answer rnd ok s d Hsc Hd).
  unfold answerTest. cbv zeta. rewrite decide_True by done.
  rewrite <- Hcast, Hc. unfold sendCastMessage. cbn. rewrite Hc. cbn.
  by rewrite Htot.
Qed.

Lemma results_message_is_final_score_witness :
  let s := dispatch rnd_mid (StartTest rnd_mid)
             (dispatch rnd_mid (StartModeChooser (deck_id deckOne))
                (dispatch rnd_mid (CastSessionChanged true) (init [deckOne]))) in
  reachable s /\ screen s = test /\ activeDeck s = Some deckOne /\ castSession s = true /\
  length (testQueue s) <= testIdx s + 1 /\
  last (sent (dispatch rnd_mid (AnswerTest true) s)) = Some (MsgResults (mkScore 1 1)).
Proof.
  intros s.
  assert (Hr : reachable s) by (unfold s; repeat constructor).
  assert (Hsc : screen s = test) by (vm_compute; reflexivity).
  assert (Hd : activeDeck s = Some deckOne) by (vm_compute; reflexivity).
  assert (Hc : castSession s = true) by (vm_compute; reflexivity).
  assert (Hl : length (testQueue s) <= testIdx s + 1) by (vm_compute; lia).
  split; [exact Hr|]. split; [exact Hsc|]. split; [exact Hd|]. split; [exact Hc|].
  split; [exact Hl|].
  destruct (results_message_is_final_score rnd_mid true s deckOne Hr Hsc Hd Hc Hl) as [_ Hs].
  rewrite Hs. vm_compute. reflexivity.
Defined.

(** ** The deck editor *)

Lemma trimStart_app_last (l : jsstring) (h : N) :
  JsString.is_space h = false -> JsString.trimStart (l ++ [h]) = JsString.trimStart l ++ [h].
Proof.
  intros Hh. induction l as [|c l IH]; cbn; [by rewrite Hh|].
  by destruct (JsString.is_space c).
Qed.

Lemma trimStart_head (s : jsstring) :
  JsString.trimStart s = [] \/
  exists h t, JsString.trimStart s = h :: t /\ JsString.is_space h = false.
Proof.
  induction s as [|c s IH]; [by left|]. cbn.
  destruct (JsString.is_space c) eqn:Hc; [done|]. right. by exists c, s.
Qed.

Lemma trimStart_fix (h : N) (t : jsstring) :
  JsString.is_space h = false -> JsString.trimStart (h :: t) = h :: t.
Proof. intros Hh. cbn. by rewrite Hh. Qed.

Lemma trimStart_idem (s : jsstring) :
  JsString.trimStart (JsString.trimStart s) = JsString.trimStart s.
Proof.
  destruct (trimStart_head s) as [->|(h & t & -> & Hh)]; [done | by apply trimStart_fix].
Qed.

Lemma trim_idem (s : jsstring) : JsString.trim (JsString.trim s) = JsString.trim s.
Proof.
  unfold JsString.trim, JsString.trimEnd.
  destruct (trimStart_head s) as [->|(h & t & -> & Hh)]; [done|].
  remember (JsString.trimStart (rev (h :: t))) as X eqn:HX.
  assert (Hu : exists u, X = u ++ [h]).
  { subst X. cbn [rev]. rewrite trimStart_app_last by done. eauto. }
  destruct Hu as [u Hu].
  assert (Hb : JsString.trimStart (rev X) = rev X).
  { rewrite Hu, rev_app_distr. cbn [rev app]. by apply trimStart_fix. }
  rewrite Hb, rev_involutive. subst X. by rewrite trimStart_idem.
Qed.

Lemma or_undefined_trim_idem (a : option jsstring) :
  let b := JsString.or_undefined (JsString.trim (JsString.or_empty a)) in
  JsString.or_undefined (JsString.trim (JsString.or_empty b)) = b.
Proof.
  cbv zeta. pose proof (trim_idem (JsString.or_empty a)) as Hy.
  destruct (JsString.trim (JsString.or_empty a)) as [|c w]; [done|].
  change (JsString.or_undefined (JsString.trim (c :: w)) = Some (c :: w)).
  by rewrite Hy.
Qed.

Lemma cleanCard_tidy (fresh : jsstring) (c : Card) :
  JsString.or (card_id c) fresh <> [] -> JsString.trim (front c) <> [] ->
  tidyCard (cleanCard fresh c).
Proof.
  intros Hid Hfront. unfold tidyCard, cleanCard. cbn. rewrite or_nil_r.
  split; [done|]. split; [done|]. split; [apply trim_idem|].
  split; symmetry; apply or_undefined_trim_idem.
Qed.

Lemma tidyCard_fix (fresh : jsstring) (c : Card) : tidyCard c -> cleanCard fresh c = c.
Proof.
  intros (Hid & Hne & Hfront & Hback & Hhint). unfold cleanCard.
  rewrite or_nil_r, Hfront, <- Hback, <- Hhint.
  destruct c as [i f b h]. cbn in *. f_equal. by destruct i.
Qed.

Lemma tidy_cards_fix (f : nat -> jsstring) (cs : list Card) :
  Forall tidyCard cs ->
  filter (fun c => 0 < length (front c)) (imap (fun i c => cleanCard (f i) c) cs) = cs.
Proof.
  intros Hcs. revert f. induction Hcs as [|c cs Hc Hcs IH]; intros f; [done|].
  rewrite imap_cons, filter_cons, (tidyCard_fix _ c Hc).
  destruct Hc as (_ & Hne & _). rewrite decide_True by (destruct (front c); [done | simpl; lia]).
  f_equal. apply IH.
Qed.

Lemma tidyDeck_fix (uids : nat -> jsstring) (d : Deck) : tidyDeck d -> cleanDraft uids d = d.
Proof.
  intros (Hne & Hname & Hcards). unfold cleanDraft.
  rewrite or_nil_r, Hname, tidy_cards_fix by done.
  destruct d as [i n cs]. cbn in *. f_equal. by destruct n.
Qed.

Lemma cleaned_cards_tidy (f : nat -> jsstring) (cs : list Card) :
  (forall i c, cs !! i = Some c -> JsString.or (card_id c) (f i) <> []) ->
  Forall tidyCard
    (filter (fun c => 0 < length (front c)) (imap (fun i c => cleanCard (f i) c) cs)).
Proof.
  revert f. induction cs as [|c cs IH]; intros f Hids; [constructor|].
  rewrite imap_cons, filter_cons.
  assert (Htl : Forall tidyCard
    (filter (fun c => 0 < length (front c)) (imap (fun i c => cleanCard (f (S i)) c) cs))).
  { apply (IH (fun i => f (S i))). intros i c' Hc'. by apply (Hids (S i)). }
  case_decide as Hkeep; [|exact Htl].
  constructor; [|exact Htl].
  apply cleanCard_tidy; [by apply (Hids 0)|].
  rewrite cleanCard_front in Hkeep. intros Hnil. rewrite Hnil in Hkeep. simpl in Hkeep. lia.
Qed.

(** X16. Saving is idempotent. If every draft card has an id or is offered
    a non-empty fresh one, the deck [saveDraft] builds is in saved form
    (non-empty trimmed name; every card with an id, a non-empty trimmed
    front and trimmed or absent back and hint), and building it again from
    that deck, with any fresh ids, returns it unchanged: opening a saved
    deck in the editor and saving it at once changes nothing. *)
Theorem cleanDraft_idempotent (uids uids' : nat -> jsstring) (d : Deck) :
  (forall i c, cards d !! i = Some c -> JsString.or (card_id c) (uids i) <> []) ->
  tidyDeck (cleanDraft uids d) /\
  cleanDraft uids' (cleanDraft uids d) = cleanDraft uids d.
Proof.
  intros Hids.
  assert (Htidy : tidyDeck (cleanDraft uids d)).
  { unfold tidyDeck, cleanDraft. cbn [name cards]. rewrite or_nil_r.
    split; [apply or_nonempty; discriminate|]. split; [|by apply cleaned_cards_tidy].
    unfold JsString.or. destruct (JsString.nonempty _); [apply trim_idem | by vm_compute]. }
  split; [exact Htidy | by apply tidyDeck_fix].
Qed.

Lemma cleanDraft_idempotent_witness :
  let d := mkDeck (JsString.lit "x") (JsString.lit "  Pets ")
             [mkCard (JsString.lit "c1") (JsString.lit " cat ") (Some (JsString.lit " ")) None;
              mkCard (JsString.lit "c2") (JsString.lit "  ") None None] in
  let u := fun _ : nat => JsString.lit "new" in
  (forall i c, cards d !! i = Some c -> JsString.or (card_id c) (u i) <> []) /\
  cleanDraft u (cleanDraft u d) = cleanDraft u d /\
  cleanDraft u d =
    mkDeck (JsString.lit "x") (JsString.lit "Pets")
           [mkCard (JsString.lit "c1") (JsString.lit "cat") None None].
Proof.
  intros d u.
  assert (Hids : forall i c, cards d !! i = Some c -> JsString.or (card_id c) (u i) <> []).
  { intros i c _. apply or_nonempty. discriminate. }
  split; [exact Hids|]. split.
  - apply (cleanDraft_idempotent u u d Hids).
  - vm_compute. reflexivity.
Defined.

Lemma imap_clean_app (f : nat -> jsstring) (cs : list Card) (c : Card) :
  imap (fun i c => cleanCard (f i) c) (cs ++ [c]) =
  imap (fun i c => cleanCard (f i) c) cs ++ [cleanCard (f (length cs)) c].
Proof. rewrite imap_app. cbn. by rewrite Nat.add_0_r. Qed.

(** X17. Blank cards are never saved: a card whose front is empty or only
    whitespace, appended to a draft, does not change the deck [saveDraft]
    builds. In particular Add Card appends one blank card to the draft and
    the deck built from the draft stays the same. *)
Theorem trailing_blank_is_not_saved (uids : nat -> jsstring) (s : State) (d : Deck) :
  draftDeck s = Some d ->
  (forall c, JsString.trim (front c) = [] ->
     cleanDraft uids (withCards d (cards d ++ [c])) = cleanDraft uids d) /\
  (forall newId,
     draftDeck (addDraftCard newId s) = Some (withCards d (cards d ++ [blankCard newId])) /\
     cleanDraft uids (withCards d (cards d ++ [blankCard newId])) = cleanDraft uids d).
Proof.
  intros Hd.
  assert (Hdrop : forall c, JsString.trim (front c) = [] ->
            cleanDraft uids (withCards d (cards d ++ [c])) = cleanDraft uids d).
  { intros c Hc. unfold cleanDraft, withCards. cbn [deck_id name cards]. f_equal.
    rewrite imap_clean_app, filter_app, filter_cons, filter_nil.
    rewrite decide_False; [by rewrite app_nil_r|].
    rewrite cleanCard_front, Hc. simpl. lia. }
  split; [exact Hdrop|]. intros newId. split; [|by apply Hdrop].
  unfold addDraftCard. by rewrite Hd.
Qed.

Lemma trailing_blank_is_not_saved_witness :
  let s := dispatch rnd_mid StartEditDeck (chosen deckABC) in
  draftDeck s = Some deckABC /\
  cleanDraft (fun _ => []) (withCards deckABC (cards deckABC ++ [blankCard (JsString.lit "n")]))
  = cleanDraft (fun _ => []) deckABC.
Proof.
  intros s.
  assert (Hd : draftDeck s = Some deckABC) by (vm_compute; reflexivity).
  split; [exact Hd|].
  destruct (trailing_blank_is_not_saved (fun _ => []) s deckABC Hd) as [_ Hadd].
  apply (Hadd (JsString.lit "n")).
Defined.

Lemma find_replaced (clean : Deck) (ds : list Deck) (key : option jsstring) :
  key = Some (deck_id clean) ->
  (exists x, x ∈ ds /\ deck_id x = deck_id clean) ->
  find (fun d => bool_decide (Some (deck_id d) = key))
       (map (fun d => if bool_decide (deck_id d = deck_id clean) then clean else d) ds)
  = Some clean.
Proof.
  intros -> (x & Hx & Hid). induction ds as [|y ds IH]; [by apply elem_of_nil in Hx|].
  cbn. destruct (decide (deck_id y = deck_id clean)) as [Hy|Hy].
  - rewrite (bool_decide_eq_true_2 _ Hy). by rewrite bool_decide_eq_true_2.
  - rewrite (bool_decide_eq_false_2 _ Hy).
    rewrite bool_decide_eq_false_2 by congruence.
    apply IH. apply elem_of_cons in Hx as [->|Hx]; [done | exact Hx].
Qed.

Lemma find_appended (sv : Deck) (ds : list Deck) :
  deck_id sv ∉ deck_id <$> ds ->
  find (fun d => bool_decide (Some (deck_id d) = Some (deck_id sv))) (ds ++ [sv]) = Some sv.
Proof.
  intros Hfresh. induction ds as [|y ds IH]; cbn.
  - by rewrite bool_decide_eq_true_2.
  - rewrite fmap_cons, not_elem_of_cons in Hfresh. destruct Hfresh as [Hy Hfresh].
    rewrite bool_decide_eq_false_2 by congruence. by apply IH.
Qed.

(** X18. After Save the saved deck is the one in use. Saving an edited
    deck puts the cleaned deck in place of every deck of the collection
    that has its id and leaves every other deck in its place, so the number
    of decks is kept, and the cleaned deck is the active deck if its id is
    still in the collection. Saving a new deck appends it to the
    collection, under the id the store answered if it answered a non-empty
    one and under the draft's id otherwise, and makes it the active deck
    provided that id is not already taken. Either way the editor closes on
    the mode screen with no draft left. *)
Theorem saveDraft_activates (uids : nat -> jsstring) (created : option jsstring)
    (s : State) (d : Deck) :
  draftDeck s = Some d ->
  let s' := saveDraft uids created s in
  let clean := cleanDraft uids d in
  screen s' = mode /\ draftDeck s' = None /\ isNewDeck s' = false /\
  (isNewDeck s = false ->
     length (decks s') = length (decks s) /\
     (forall i x, decks s !! i = Some x ->
        decks s' !! i = Some (if decide (deck_id x = deck_id d) then clean else x)) /\
     (forall x, x ∈ decks s -> deck_id x <> deck_id d -> x ∈ decks s') /\
     ((exists x, x ∈ decks s /\ deck_id x = deck_id d) -> activeDeck s' = Some clean)) /\
  (isNewDeck s = true ->
     exists sv, decks s' = decks s ++ [sv] /\ name sv = name clean /\
       cards sv = cards clean /\
       deck_id sv = match created with
                    | Some i => if decide (i <> [] /\ i <> deck_id d) then i else deck_id d
                    | None => deck_id d
                    end /\
       (deck_id sv ∉ deck_id <$> decks s -> activeDeck s' = Some sv)).
Proof.
  intros Hd s' clean. unfold s', saveDraft. rewrite Hd. fold clean.
  destruct (isNewDeck s) eqn:Hnew; cbn.
  - split; [done|]. split; [done|]. split; [done|]. split; [done|]. intros _.
    eexists. split; [reflexivity|].
    split; [by destruct created as [i|]; [destruct (_ && _)|]|].
    split; [by destruct created as [i|]; [destruct (_ && _)|]|].
    split.
    + destruct created as [i|]; [|done].
      destruct i as [|c i]; cbn; [by rewrite decide_False by (intros [? _]; done)|].
      case_bool_decide as Hi; cbn.
      * rewrite decide_False; [done|]. intros [_ Hne]. by apply Hne.
      * rewrite decide_True; [done|]. split; [done|]. exact Hi.
    + intros Hfresh. unfold activeDeck. cbn. by apply find_appended.
  - split; [done|]. split; [done|]. split; [done|]. split; [|done]. intros _.
    split; [by rewrite length_map|]. split; [|split].
    + intros i x Hx. change (map ?f (decks s)) with (f <$> decks s).
      rewrite list_lookup_fmap, Hx. cbn. f_equal. by repeat case_decide; case_bool_decide.
    + intros x Hx Hid. apply list_elem_of_fmap. exists x. split; [|done].
      by rewrite bool_decide_eq_false_2.
    + intros Hex. unfold activeDeck. cbn.
      apply (find_replaced clean (decks s)); [reflexivity | exact Hex].
Qed.

Lemma saveDraft_activates_witness :
  let s := dispatch rnd_mid (SetDraftName (JsString.lit " Letters "))
             (dispatch rnd_mid StartEditDeck (chosen deckABC)) in
  draftDeck s = Some (mkDeck (deck_id deckABC) (JsString.lit " Letters ") (cards deckABC)) /\
  name <$> activeDeck (saveDraft (fun _ => []) None s) = Some (JsString.lit "Letters").
Proof.
  intros s.
  assert (Hd : draftDeck s =
               Some (mkDeck (deck_id deckABC) (JsString.lit " Letters ") (cards deckABC)))
    by (vm_compute; reflexivity).
  split; [exact Hd|].
  destruct (saveDraft_activates (fun _ => []) None s _ Hd) as (_ & _ & _ & Hedit & _).
  destruct Hedit as (_ & _ & _ & Hact); [vm_compute; reflexivity|].
  rewrite Hact; [vm_compute; reflexivity|].
  exists deckABC. split; [vm_compute; left | reflexivity].
Defined.




(** X20. Typing into the front of a draft card changes that card alone and
    appends at most one card. When the front was empty and the text typed
    is not blank, the draft afterwards holds a blank card for the next
    entry; when the front was not empty, no card is added. An id that is
    not in the draft leaves the draft as it is. *)
Theorem frontChanged_keeps_a_blank (cid value newId : jsstring) (prev : Deck) :
  (list_find (fun c => card_id c = cid) (cards prev) = None ->
     frontChanged cid value newId prev = prev) /\
  (forall idx c,
     list_find (fun c => card_id c = cid) (cards prev) = Some (idx, c) ->
     let d' := frontChanged cid value newId prev in
     deck_id d' = deck_id prev /\ name d' = name prev /\
     take (length (cards prev)) (cards d') = <[idx := withFront c value]> (cards prev) /\
     (cards d' = <[idx := withFront c value]> (cards prev) \/
      cards d' = <[idx := withFront c value]> (cards prev) ++ [blankCard newId]) /\
     (front c = [] -> JsString.trim value <> [] ->
        exists b, b ∈ cards d' /\ isBlankCard b = true) /\
     (front c <> [] -> cards d' = <[idx := withFront c value]> (cards prev))).
Proof.
  split; [intros Hnone; unfold frontChanged; by rewrite Hnone|].
  intros idx c Hfind d'. unfold d', frontChanged. rewrite Hfind.
  set (cs := <[idx := withFront c value]> (cards prev)).
  assert (Hlen : length cs = length (cards prev)) by apply length_insert.
  set (blank := existsb _ cs).
  destruct (negb (JsString.nonempty (front c)) &&
            JsString.nonempty (JsString.trim value) && negb blank) eqn:Hcond; cbn.
  - apply andb_true_iff in Hcond as [Hcond Hb].
    apply andb_true_iff in Hcond as [Hempty _].
    split; [done|]. split; [done|].
    split; [by rewrite <- Hlen, take_app_length|]. split; [by right|]. split.
    + intros _ _. exists (blankCard newId). split; [|done].
      apply elem_of_app. right. left.
    + intros Hne. by destruct (front c).
  - split; [done|]. split; [done|].
    split; [by rewrite <- Hlen, firstn_all|]. split; [by left|]. split; [|done].
    intros Hempty Hvalue. rewrite Hempty in Hcond. cbn in Hcond.
    destruct (JsString.trim value) eqn:Hv; [done|]. cbn in Hcond.
    apply negb_false_iff in Hcond. unfold blank in Hcond.
    apply existsb_exists in Hcond as (b & Hb & Hblank).
    exists b. split; [by apply list_elem_of_In | exact Hblank].
Qed.

(** X21. Abandoning a new deck leaves no trace: New Deck on the home screen
    followed by Discard, or by Back with the confirmation accepted, returns
    to the home screen with the deck collection unchanged, no draft and no
    active deck; Back with the confirmation declined keeps the editor as it
    is. *)
Theorem new_deck_discarded (rnd : rand) (newId : jsstring) (s : State) :
  screen s = home ->
  let e := dispatch rnd (AddDeck newId) s in
  let s' := dispatch rnd DiscardDraft e in
  screen e = editor /\ draftDeck e = Some (mkDeck newId (JsString.lit "New Deck") []) /\
  decks s' = decks s /\ screen s' = home /\ draftDeck s' = None /\
  activeDeckId s' = None /\ isNewDeck s' = false /\
  dispatch rnd (Back true) e = s' /\
  dispatch rnd (Back false) e = e.
Proof.
  intros Hsc e s'.
  assert (He : e = addDeck newId s).
  { unfold e, dispatch, rendered, on. rewrite Hsc. cbn.
    case_decide; [done|]. by apply practiceEffect_off. }
  assert (Hs' : s' = discardDraft e).
  { unfold s', dispatch, rendered, on, hasDraft. rewrite He. cbn.
    case_decide; [done|]. by apply practiceEffect_off. }
  split; [by rewrite He|]. split; [by rewrite He|].
  rewrite Hs', He. cbn. repeat (split; [done|]).
  split.
  - unfold dispatch, rendered, on. cbn. case_decide; [done|]. by apply practiceEffect_off.
  - unfold dispatch, rendered, on. cbn. by rewrite decide_True.
Qed.

Lemma new_deck_discarded_witness :
  let s := init [deckABC] in
  let s' := dispatch rnd_mid DiscardDraft (dispatch rnd_mid (AddDeck (JsString.lit "n")) s) in
  screen s = home /\ decks s' = [deckABC] /\ screen s' = home /\ draftDeck s' = None.
Proof.
  intros s s'.
  assert (Hsc : screen s = home) by reflexivity.
  destruct (new_deck_discarded rnd_mid (JsString.lit "n") s Hsc)
    as (_ & _ & Hdecks & Hhome & Hdraft & _).
  split; [exact Hsc|]. split; [exact Hdecks|]. split; [exact Hhome | exact Hdraft].
Defined.

(** X22. Toggling the expansion of a card flips the membership of that card
    in the set of expanded cards and of no other, so toggling twice gives
    back the set it started from. *)
Theorem toggleCardExpansion_involutive (cardId : jsstring) (prev : gset jsstring) :
  toggleCardExpansion cardId (toggleCardExpansion cardId prev) = prev /\
  (cardId ∈ toggleCardExpansion cardId prev <-> cardId ∉ prev) /\
  (forall other, other <> cardId ->
     (other ∈ toggleCardExpansion cardId prev <-> other ∈ prev)).
Proof.
  unfold toggleCardExpansion. split; [|split].
  - destruct (decide (cardId ∈ prev)) as [Hin|Hout].
    + rewrite decide_False
        by (intros [_ H]%elem_of_difference; apply H; by apply elem_of_singleton).
      apply set_eq. intros x. rewrite elem_of_union, elem_of_difference, elem_of_singleton.
      destruct (decide (x = cardId)) as [->|]; tauto.
    + rewrite decide_True by (apply elem_of_union; right; by apply elem_of_singleton).
      apply set_eq. intros x. rewrite elem_of_difference, elem_of_union, elem_of_singleton.
      destruct (decide (x = cardId)) as [->|]; tauto.
  - case_decide; rewrite ?elem_of_difference, ?elem_of_union, elem_of_singleton; tauto.
  - intros other Hne.
    case_decide; rewrite ?elem_of_difference, ?elem_of_union, elem_of_singleton; tauto.
Qed.

Lemma map_replace_same (d0 : Deck) (ds : list Deck) :
  (forall x, x ∈ ds -> deck_id x = deck_id d0 -> x = d0) ->
  map (fun d => if bool_decide (deck_id d = deck_id d0) then d0 else d) ds = ds.
Proof.
  intros Hsame. induction ds as [|y ds IH]; [done|]. cbn.
  rewrite IH by (intros x Hx; apply Hsame; by right). f_equal.
  case_bool_decide as Hy; [|done]. symmetry. apply Hsame; [left | done].
Qed.

Lemma find_elem (P : Deck -> bool) (ds : list Deck) (d : Deck) :
  find P ds = Some d -> d ∈ ds /\ P d = true.
Proof.
  intros H. apply find_some in H as [Hin HP]. split; [by apply list_elem_of_In | done].
Qed.

Lemma saveDraft_edited (uids : nat -> jsstring) (created : option jsstring)
    (s : State) (d : Deck) :
  draftDeck s = Some d -> isNewDeck s = false ->
  let s' := saveDraft uids created s in
  decks s' = map (fun x => if bool_decide (deck_id x = deck_id d) then cleanDraft uids d else x)
                 (decks s) /\
  activeDeckId s' = Some (deck_id d) /\ screen s' = mode /\ draftDeck s' = None.
Proof. intros Hd Hnew. unfold saveDraft. rewrite Hd, Hnew. by cbn -[cleanDraft]. Qed.

(** X23. Edit and Save at once is a round trip. If the deck opened in the
    editor is in saved form and is the only deck with its id, saving the
    untouched draft leaves the deck collection exactly as it was, with that
    deck active, on the mode screen. Opening an id that is not in the
    collection does nothing. *)
Theorem edit_then_save_round_trip (uids : nat -> jsstring) (created : option jsstring)
    (s : State) (d0 : Deck) :
  find (fun d => bool_decide (deck_id d = deck_id d0)) (decks s) = Some d0 ->
  tidyDeck d0 ->
  (forall x, x ∈ decks s -> deck_id x = deck_id d0 -> x = d0) ->
  let s' := saveDraft uids created (startEditDeck (deck_id d0) s) in
  decks s' = decks s /\ activeDeck s' = Some d0 /\ screen s' = mode /\ draftDeck s' = None.
Proof.
  intros Hfind Htidy Hsame s'.
  assert (He : startEditDeck (deck_id d0) s =
               setScreen (setIsNewDeck (setDraftDeck s (Some d0)) false) editor).
  { unfold startEditDeck. by rewrite Hfind. }
  assert (Hd : draftDeck (startEditDeck (deck_id d0) s) = Some d0) by (by rewrite He).
  assert (Hin : d0 ∈ decks s) by (by apply find_elem in Hfind as [Hin _]).
  assert (Hnew : isNewDeck (startEditDeck (deck_id d0) s) = false) by (by rewrite He).
  destruct (saveDraft_edited uids created _ d0 Hd Hnew) as (Hdecks & Hid & Hsc & Hdraft).
  fold s' in Hdecks, Hid, Hsc, Hdraft.
  rewrite (tidyDeck_fix uids d0 Htidy), He in Hdecks. cbn in Hdecks.
  rewrite (map_replace_same d0 (decks s) Hsame) in Hdecks.
  split; [exact Hdecks|]. split; [|by split].
  unfold activeDeck. rewrite Hdecks, Hid.
  rewrite <- (map_replace_same d0 (decks s) Hsame).
  apply (find_replaced d0 (decks s)); [reflexivity | by exists d0].
Qed.

Lemma edit_then_save_round_trip_witness :
  let s := chosen deckABC in
  find (fun d => bool_decide (deck_id d = deck_id deckABC)) (decks s) = Some deckABC /\
  tidyDeck deckABC /\
  (forall x, x ∈ decks s -> deck_id x = deck_id deckABC -> x = deckABC) /\
  decks (saveDraft (fun _ => []) None (startEditDeck (deck_id deckABC) s)) = decks s.
Proof.
  intros s.
  assert (Hfind : find (fun d => bool_decide (deck_id d = deck_id deckABC)) (decks s)
                  = Some deckABC) by (vm_compute; reflexivity).
  assert (Htidy : tidyDeck deckABC).
  { split; [discriminate|]. split; [vm_compute; reflexivity|].
    repeat constructor; (discriminate || (vm_compute; reflexivity)). }
  assert (Hsame : forall x, x ∈ decks s -> deck_id x = deck_id deckABC -> x = deckABC).
  { intros x Hx _. change (decks s) with [deckABC] in Hx.
    by apply list_elem_of_singleton in Hx. }
  split; [exact Hfind|]. split; [exact Htidy|]. split; [exact Hsame|].
  apply (edit_then_save_round_trip (fun _ => []) None s deckABC Hfind Htidy Hsame).
Defined.




(** X25. Choosing a deck on the home screen opens the mode screen on the
    first deck of the collection that has the chosen id: the active deck
    stands at some place of the collection, has the chosen id, and no deck
    before that place has it. The collection is left as it was. *)
Theorem startModeChooser_finds (deckId : jsstring) (s : State) :
  deckId ∈ deck_id <$> decks s ->
  exists i d, decks s !! i = Some d /\ deck_id d = deckId /\
    (forall j y, j < i -> decks s !! j = Some y -> deck_id y <> deckId) /\
    activeDeck (startModeChooser deckId s) = Some d /\
    screen (startModeChooser deckId s) = mode /\
    decks (startModeChooser deckId s) = decks s.
Proof.
  intros Hin. unfold startModeChooser, activeDeck. cbn.
  induction (decks s) as [|y ds IH]; [by apply elem_of_nil in Hin|]. cbn.
  destruct (decide (deck_id y = deckId)) as [Hy|Hy].
  - rewrite bool_decide_eq_true_2 by congruence.
    exists 0, y. split; [done|]. split; [done|]. split; [intros j z Hj; lia | done].
  - rewrite bool_decide_eq_false_2 by congruence.
    rewrite fmap_cons in Hin. apply elem_of_cons in Hin as [Hin|Hin]; [congruence|].
    destruct (IH Hin) as (i & d & Hd & Hid & Hfirst & Hact & _).
    exists (S i), d. split; [done|]. split; [done|]. split; [|done].
    intros [|j] z Hj Hz; cbn in Hz; [congruence|]. apply (Hfirst j z); [lia | done].
Qed.

Lemma startModeChooser_finds_witness :
  (deck_id deckABC ∈ deck_id <$> decks (init [deckOne; deckABC])) /\
  exists i d, decks (init [deckOne; deckABC]) !! i = Some d /\
    deck_id d = deck_id deckABC /\
    activeDeck (startModeChooser (deck_id deckABC) (init [deckOne; deckABC])) = Some d.
Proof.
  assert (Hin : deck_id deckABC ∈ deck_id <$> decks (init [deckOne; deckABC])).
  { apply list_elem_of_In. vm_compute. auto. }
  split; [exact Hin|].
  destruct (startModeChooser_finds (deck_id deckABC) (init [deckOne; deckABC]) Hin)
    as (i & d & Hd & Hid & _ & Hact & _).
  by exists i, d.
Defined.

Lemma cleaned_keys (f : nat -> jsstring) (patch : Card -> Card) (cs : list Card) :
  (forall c, card_id (patch c) = card_id c /\ front (patch c) = front c) ->
  (fun c => (card_id c, front c)) <$>
    filter (fun c => 0 < length (front c)) (imap (fun i c => cleanCard (f i) c) (patch <$> cs))
  = (fun c => (card_id c, front c)) <$>
    filter (fun c => 0 < length (front c)) (imap (fun i c => cleanCard (f i) c) cs).
Proof.
  intros Hp. revert f. induction cs as [|c cs IH]; intros f; [done|].
  rewrite fmap_cons, !imap_cons, !filter_cons.
  destruct (Hp c) as [Hid Hfront].
  assert (Hf : front (cleanCard (f 0) (patch c)) = front (cleanCard (f 0) c))
    by (by rewrite !cleanCard_front, Hfront).
  assert (Hi : card_id (cleanCard (f 0) (patch c)) = card_id (cleanCard (f 0) c))
    by (unfold cleanCard; cbn; by rewrite Hid).
  rewrite Hf. case_decide; [|apply IH].
  rewrite !fmap_cons, Hf, Hi. f_equal. apply IH.
Qed.

(** X26. Editing the back or the hint of a draft card changes nothing else:
    the draft keeps its cards in number and order with their ids and
    fronts, cards with another id are untouched, and the deck [saveDraft]
    builds afterwards has the same cards by id and front as before the
    edit. *)
Theorem back_and_hint_edits_keep_cards (uids : nat -> jsstring) (cid v : jsstring)
    (s : State) (d : Deck) (patch : Card -> Card) :
  draftDeck s = Some d -> patch = patchBack v \/ patch = patchHint v ->
  exists d', draftDeck (updateDraftCard cid patch s) = Some d' /\
    deck_id d' = deck_id d /\ name d' = name d /\
    card_id <$> cards d' = card_id <$> cards d /\
    front <$> cards d' = front <$> cards d /\
    (forall i c, cards d !! i = Some c -> card_id c <> cid -> cards d' !! i = Some c) /\
    (fun c => (card_id c, front c)) <$> cards (cleanDraft uids d')
    = (fun c => (card_id c, front c)) <$> cards (cleanDraft uids d).
Proof.
  intros Hd Hpatch.
  set (g := fun c => if bool_decide (card_id c = cid) then patch c else c).
  assert (Hg : forall c, card_id (g c) = card_id c /\ front (g c) = front c).
  { intros c. unfold g. case_bool_decide; [|done]. by destruct Hpatch as [-> | ->]. }
  exists (withCards d (map g (cards d))).
  split; [unfold updateDraftCard; by rewrite Hd|].
  split; [done|]. split; [done|]. cbn [cards withCards].
  split; [rewrite <- list_fmap_compose; apply list_fmap_ext; intros i c _; apply Hg|].
  split; [rewrite <- list_fmap_compose; apply list_fmap_ext; intros i c _; apply Hg|].
  split.
  - intros i c Hc Hne. change (map g (cards d)) with (g <$> cards d).
    rewrite list_lookup_fmap, Hc. cbn. unfold g. by rewrite bool_decide_eq_false_2.
  - unfold cleanDraft. cbn [cards]. by apply cleaned_keys.
Qed.

Lemma back_and_hint_edits_keep_cards_witness :
  let s := dispatch rnd_mid StartEditDeck (chosen deckABC) in
  draftDeck s = Some deckABC /\
  (patchBack (JsString.lit "b") = patchBack (JsString.lit "b") \/
   patchBack (JsString.lit "b") = patchHint (JsString.lit "b")) /\
  exists d', draftDeck (updateDraftCard (JsString.lit "A") (patchBack (JsString.lit "b")) s)
             = Some d' /\
             front <$> cards d' = front <$> cards deckABC.
Proof.
  intros s.
  assert (Hd : draftDeck s = Some deckABC) by (vm_compute; reflexivity).
  split; [exact Hd|]. split; [by left|].
  destruct (back_and_hint_edits_keep_cards (fun _ => []) (JsString.lit "A") (JsString.lit "b")
              s deckABC (patchBack (JsString.lit "b")) Hd (or_introl eq_refl))
    as (d' & Hd' & _ & _ & _ & Hfront & _).
  by exists d'.
Defined.
